(** * The Globe Labs channel handler of courier (handlers/globe/globe.go)

    A shallow embedding of the two entry points of the handler,
    [ReceiveMessage] (the inbound webhook) and [SendMsg] (the outbound
    send), with the effects they have on the host written out: the
    messages handed to the backend, the responses written to the caller,
    the HTTP exchanges performed and the status object that is mutated
    while the parts of a message are sent. *)

From Stdlib Require Import List Bool Arith Lia Ascii.
From stdpp Require Import base strings gmap.
Import ListNotations.

Local Open Scope string_scope.
Local Open Scope list_scope.
Local Open Scope nat_scope.

(** ** Go values *)

(** A Go [error] value is identified with its message; [nil] is [None]. *)
Definition error := string.

(** ** The pieces of the Go standard library the handler calls *)

Module strings.

(** [strings.HasPrefix s prefix]. *)
Definition HasPrefix (s prefix : string) : bool := String.prefix prefix s.

(** The slice expression [s[n:]] on a string at least [n] long. *)
Fixpoint from (n : nat) (s : string) : string :=
  match n, s with
  | O, _ => s
  | S _, EmptyString => EmptyString
  | S n', String _ rest => from n' rest
  end.

(** [strings.TrimPrefix s prefix]: [s] without the leading [prefix], or
    [s] itself when it does not start with it. *)
Definition TrimPrefix (s prefix : string) : string :=
  if HasPrefix s prefix then from (String.length prefix) s else s.

End strings.

Module fmt.

(** [fmt.Sprintf format arg] for a format whose only verb is one [%s]. *)
Fixpoint Sprintf (format arg : string) : string :=
  match format with
  | String "%"%char (String "s"%char rest) => arg +:+ rest
  | String ch rest => String ch (Sprintf rest arg)
  | EmptyString => EmptyString
  end.

(** [fmt.Errorf] on a format without verbs. *)
Definition Errorf (format : string) : error := format.

End fmt.

Module http.

Definition MethodPost : string := "POST".

(** [http.Header]: the values of each header key. *)
Definition Header_Set (key value : string)
    (h : gmap string (list string)) : gmap string (list string) :=
  <[key := [value]]> h.

(** [http.Request], reduced to what the handler writes. *)
Record Request := {
  Method : string;
  URL : string;
  Header : gmap string (list string);
  Body : string
}.

(** [req.Header.Set(key, value)] on a request that is not nil. *)
Definition set_header (key value : string) (req : Request) : Request :=
  {| Method := Method req; URL := URL req;
     Header := Header_Set key value (Header req); Body := Body req |}.

End http.

(** ** courier's data model *)

(** The two delivery states the handler names. *)
Inductive MsgStatusValue := MsgErrored | MsgWired.

Definition URN := string.
Definition MsgID := Z.

Record Channel := {
  channel_address : string;
  channel_country : string;
  channel_config : gmap string string
}.

(** Modelled from the spec: [Channel.StringConfigForKey] is a method of
    courier's [Channel] interface whose implementation is not among the
    sources. The channel carries a mapping of string configuration keys to
    string values, and a key is fetched with a default that stands in for
    an absent key. *)
Definition StringConfigForKey (c : Channel) (key defaultValue : string) : string :=
  default defaultValue (channel_config c !! key).

(** A message requested for delivery ([courier.Msg], read-only here). *)
Record Msg := {
  msg_id : MsgID;
  msg_channel : Channel;
  msg_urn : URN;
  msg_text : string;
  msg_attachments : list string
}.

(** [utils.RequestResponse]: the trace of one HTTP exchange. The handler
    never looks inside it. *)
Record RequestResponse := {
  rr_status_code : Z;
  rr_response_body : string
}.

(** Modelled from the spec: [courier.ChannelLog] and its constructors are
    not among the sources. A diagnostic log entry records one HTTP exchange
    or its failure: description, request/response trace, error (if any). *)
Record ChannelLog := {
  log_description : string;
  log_channel : Channel;
  log_msg_id : MsgID;
  log_rr : RequestResponse;
  log_error : option (string * error)
}.

Definition NewChannelLogFromRR (description : string) (c : Channel) (id : MsgID)
    (rr : RequestResponse) : ChannelLog :=
  {| log_description := description; log_channel := c; log_msg_id := id;
     log_rr := rr; log_error := None |}.

Definition WithError (description : string) (err : option error)
    (l : ChannelLog) : ChannelLog :=
  {| log_description := log_description l; log_channel := log_channel l;
     log_msg_id := log_msg_id l; log_rr := log_rr l;
     log_error := (fun e => (description, e)) <$> err |}.

(** Modelled from the spec: [courier.MsgStatus] is an interface whose
    implementation is not among the sources. A delivery status is a mutable
    accumulator: the current state and the ordered sequence of diagnostic
    log entries, created with an initial state and no entry. *)
Record MsgStatus := {
  status_channel : Channel;
  status_id : MsgID;
  status_value : MsgStatusValue;
  status_logs : list ChannelLog
}.

Definition NewMsgStatusForID (c : Channel) (id : MsgID) (s : MsgStatusValue) : MsgStatus :=
  {| status_channel := c; status_id := id; status_value := s; status_logs := [] |}.

Definition AddLog (l : ChannelLog) (st : MsgStatus) : MsgStatus :=
  {| status_channel := status_channel st; status_id := status_id st;
     status_value := status_value st; status_logs := status_logs st ++ [l] |}.

Definition SetStatus (s : MsgStatusValue) (st : MsgStatus) : MsgStatus :=
  {| status_channel := status_channel st; status_id := status_id st;
     status_value := s; status_logs := status_logs st |}.

(** ** The handler's own declarations *)

Definition maxMsgLength : nat := 160.
Definition sendURL : string :=
  "https://devapi.globelabs.com.ph/smsmessaging/v1/outbound/%s/requests".

Definition configPassphrase : string := "passphrase".
Definition configAppSecret : string := "app_secret".
Definition configAppID : string := "app_id".

(** One entry of [moMsg.InboundSMSMessageList.InboundSMSMessage]. *)
Record InboundSMSMessage := {
  DateTime : string;
  DestinationAddress : string;
  MessageID : string;
  Message : string;
  SenderAddress : string
}.

Record moMsg := {
  InboundSMSMessageList : list InboundSMSMessage
}.

Record mtMsg := {
  Address : string;
  mt_Message : string;
  Passphrase : string;
  AppID : string;
  AppSecret : string
}.

(** A Go call returning [(T, error)] whose value is used only when the
    error is nil. *)
Inductive result (A : Type) : Type :=
| Ok (a : A)
| Err (e : error).
Arguments Ok {A} a.
Arguments Err {A} e.

(** How a Go function call ends: it returns, or it panics. *)
Inductive outcome (A : Type) : Type :=
| Returned (a : A)
| Panicked.
Arguments Returned {A} a.
Arguments Panicked {A}.

Definition Time := Z.

(** Modelled from the spec: the message built by
    [Backend().NewIncomingMsg(c, urn, text).WithExternalID(id).WithReceivedOn(date)];
    the backend is not among the sources. An incoming message has the
    source channel, the normalized sender identifier, the body text, the
    vendor's external identifier (which may be empty) and the received
    timestamp. *)
Record IncomingMsg := {
  in_channel : Channel;
  in_urn : URN;
  in_text : string;
  in_external_id : string;
  in_received_on : option Time
}.

Definition NewIncomingMsg (c : Channel) (urn : URN) (text : string) : IncomingMsg :=
  {| in_channel := c; in_urn := urn; in_text := text;
     in_external_id := ""; in_received_on := None |}.

Definition WithExternalID (id : string) (m : IncomingMsg) : IncomingMsg :=
  {| in_channel := in_channel m; in_urn := in_urn m; in_text := in_text m;
     in_external_id := id; in_received_on := in_received_on m |}.

Definition WithReceivedOn (date : Time) (m : IncomingMsg) : IncomingMsg :=
  {| in_channel := in_channel m; in_urn := in_urn m; in_text := in_text m;
     in_external_id := in_external_id m; in_received_on := Some date |}.

(** What the handler writes to the caller of the webhook: one of courier's
    three response writers. *)
Inductive Response :=
| RequestError (err : error)           (* courier.WriteAndLogRequestError *)
| RequestIgnored (details : string)    (* courier.WriteAndLogRequestIgnored *)
| MsgSuccess (msgs : list IncomingMsg) (* courier.WriteMsgSuccess *).

(** One HTTP exchange performed by [utils.MakeHTTPRequest]. *)
Record Exchange := {
  ex_request : http.Request;
  ex_rr : RequestResponse;
  ex_err : option error
}.

(** The collaborators of the handler: the functions it calls in the Go
    standard library ([time], [net/http], [encoding/json]), in gocommon
    ([urns]) and in the packages of courier that are not among the sources
    ([handlers], [utils], the backend and the response writers). Any
    implementation of them is allowed. The ones with effects are given what
    happened before in the call: the backend the messages already stored,
    the network the exchanges already performed. *)
Record Host := {
  time_Parse : string -> string -> result Time;
  urns_NewTelURNForCountry : string -> string -> URN;
  urns_Path : URN -> string;
  json_Encode : mtMsg -> string;
  http_NewRequest : string -> string -> string -> option http.Request * option error;
  handlers_DecodeAndValidateJSON : string -> result moMsg;
  handlers_GetTextAndAttachments : Msg -> string;
  handlers_SplitMsg : string -> nat -> list string;
  utils_MakeHTTPRequest : list Exchange -> http.Request -> RequestResponse * option error;
  Backend_WriteMsg : list IncomingMsg -> IncomingMsg -> option error;
  ResponseWriter_Write : Response -> option error
}.

Module handlers.

(** Modelled from the spec: the cut of a body that does not fit, for
    [SplitMsg] below. The body is read character by character into the
    current segment [part], which is closed as soon as it is [max] long;
    what is left at the end, if anything, is the last segment. *)
Fixpoint splitParts (max : nat) (part text : string) : list string :=
  match text with
  | EmptyString => if (0 <? String.length part)%nat then [part] else []
  | String r rest =>
      let part' := part +:+ String r EmptyString in
      if (String.length part' =? max)%nat
      then part' :: splitParts max EmptyString rest
      else splitParts max part' rest
  end.

(** Modelled from the spec: [handlers.SplitMsg] is not among the sources.
    Section 4.3: the body is split on a length boundary into an ordered
    sequence of segments, none longer than the maximum, whose
    concatenation is the body. A body that fits is one segment; a longer
    one is cut after every [max] characters. *)
Definition SplitMsg (text : string) (max : nat) : list string :=
  if (String.length text <=? max)%nat then [text] else splitParts max EmptyString text.

End handlers.

(** ** SendMsg *)

(** What a send leaves behind: how the call ended, the status object as
    the call left it (if it was created at all) and the HTTP exchanges
    performed, oldest first. *)
Record Sent := {
  sent_result : outcome (option MsgStatus * option error);
  sent_status : option MsgStatus;
  sent_net : list Exchange
}.

Section SendMsg.

Context (h : Host).

(** The body of the loop over [parts], with the status object and the
    exchanges performed so far. *)
Fixpoint sendParts (msg : Msg) (appID appSecret passphrase : string)
    (parts : list string) (status : MsgStatus) (net : list Exchange) : Sent :=
  match parts with
  | [] =>
      {| sent_result := Returned (Some status, None);
         sent_status := Some status; sent_net := net |}
  | part :: parts' =>
      let glMsg :=
        {| Address := strings.TrimPrefix (urns_Path h (msg_urn msg)) "+";
           mt_Message := part;
           Passphrase := passphrase;
           AppID := appID;
           AppSecret := appSecret |} in
      let requestBody := json_Encode h glMsg in
      let '(req, err) :=
        http_NewRequest h http.MethodPost
          (fmt.Sprintf sendURL (channel_address (msg_channel msg))) requestBody in
      match req with
      | None =>
          (* req.Header on a nil request *)
          {| sent_result := Panicked; sent_status := Some status; sent_net := net |}
      | Some req =>
          let req := http.set_header "Content-Type" "application/json" req in
          let req := http.set_header "Accept" "application/json" req in
          match err with
          | Some err =>
              {| sent_result := Returned (None, Some err);
                 sent_status := Some status; sent_net := net |}
          | None =>
              let '(rr, err) := utils_MakeHTTPRequest h net req in
              let log :=
                WithError "Message Send Error" err
                  (NewChannelLogFromRR "Message Sent" (msg_channel msg) (msg_id msg) rr) in
              let status := AddLog log status in
              let net := net ++ [ {| ex_request := req; ex_rr := rr; ex_err := err |} ] in
              match err with
              | Some _ =>
                  {| sent_result := Returned (Some status, None);
                     sent_status := Some status; sent_net := net |}
              | None =>
                  sendParts msg appID appSecret passphrase parts'
                    (SetStatus MsgWired status) net
              end
          end
      end
  end.

Definition SendMsg (msg : Msg) : Sent :=
  let configError (e : error) :=
    {| sent_result := Returned (None, Some e); sent_status := None; sent_net := [] |} in
  let appID := StringConfigForKey (msg_channel msg) configAppID "" in
  if String.eqb appID ""
  then configError (fmt.Errorf "Missing 'app_id' config for GL channel")
  else
    let appSecret := StringConfigForKey (msg_channel msg) configAppSecret "" in
    if String.eqb appSecret ""
    then configError (fmt.Errorf "Missing 'app_secret' config for GL channel")
    else
      let passphrase := StringConfigForKey (msg_channel msg) configPassphrase "" in
      if String.eqb passphrase ""
      then configError (fmt.Errorf "Missing 'passphrase' config for GL channel")
      else
        let status := NewMsgStatusForID (msg_channel msg) (msg_id msg) MsgErrored in
        let parts :=
          handlers_SplitMsg h (handlers_GetTextAndAttachments h msg) maxMsgLength in
        sendParts msg appID appSecret passphrase parts status [].

End SendMsg.

(** ** ReceiveMessage *)

(** What a call of the webhook leaves behind: the returned events and
    error, the messages the backend stored, and the responses written to
    the caller, both oldest first. [nil] events are [None]. *)
Record Received := {
  recv_events : option (list IncomingMsg);
  recv_err : option error;
  recv_written : list IncomingMsg;
  recv_responses : list Response
}.

Section ReceiveMessage.

Context (h : Host).

(** [return nil, courier.Write...(ctx, w, r, c, ...)]: the response is
    written and the writer's own error is what the handler returns. *)
Definition respondNil (resp : Response) (written : list IncomingMsg) : Received :=
  {| recv_events := None; recv_err := ResponseWriter_Write h resp;
     recv_written := written; recv_responses := [resp] |}.

(** The loop over the entries of the batch, with the events and messages
    collected and the messages stored so far. *)
Fixpoint receiveMsgs (c : Channel) (glMsgs : list InboundSMSMessage)
    (events msgs written : list IncomingMsg) : Received :=
  match glMsgs with
  | [] =>
      {| recv_events := Some events;
         recv_err := ResponseWriter_Write h (MsgSuccess msgs);
         recv_written := written; recv_responses := [MsgSuccess msgs] |}
  | glMsg :: glMsgs' =>
      match time_Parse h "Mon Jan 2 2006 15:04:05 GMT+0000 (UTC)" (DateTime glMsg) with
      | Err err => respondNil (RequestError err) written
      | Ok date =>
          if negb (strings.HasPrefix (SenderAddress glMsg) "tel:")
          then respondNil
                 (RequestError (fmt.Errorf "invalid 'senderAddress' parameter")) written
          else
            let urn :=
              urns_NewTelURNForCountry h
                (strings.from 4 (SenderAddress glMsg)) (channel_country c) in
            let msg :=
              WithReceivedOn date
                (WithExternalID (MessageID glMsg)
                   (NewIncomingMsg c urn (Message glMsg))) in
            match Backend_WriteMsg h written msg with
            | Some err =>
                {| recv_events := None; recv_err := Some err;
                   recv_written := written; recv_responses := [] |}
            | None =>
                receiveMsgs c glMsgs' (events ++ [msg]) (msgs ++ [msg]) (written ++ [msg])
            end
      end
  end.

(** [r] is the body of the request. *)
Definition ReceiveMessage (c : Channel) (r : string) : Received :=
  match handlers_DecodeAndValidateJSON h r with
  | Err err => respondNil (RequestError err) []
  | Ok glRequest =>
      if length (InboundSMSMessageList glRequest) =? 0
      then respondNil (RequestIgnored "no messages, ignored") []
      else receiveMsgs c (InboundSMSMessageList glRequest) [] [] []
  end.

End ReceiveMessage.

(** ** Vocabulary of the properties *)

(** The channel has the three configuration values [SendMsg] asks for. *)
Definition configured (c : Channel) : Prop :=
  StringConfigForKey c configAppID "" <> "" /\
  StringConfigForKey c configAppSecret "" <> "" /\
  StringConfigForKey c configPassphrase "" <> "".

Definition requiredKeys : list string :=
  [configAppID; configAppSecret; configPassphrase].

(** The three errors [SendMsg] returns for a channel that lacks a value. *)
Definition configErrors : list error :=
  [ "Missing 'app_id' config for GL channel";
    "Missing 'app_secret' config for GL channel";
    "Missing 'passphrase' config for GL channel" ].

(** The same message on a channel with another configuration. *)
Definition withConfig (cfg : gmap string string) (msg : Msg) : Msg :=
  {| msg_id := msg_id msg;
     msg_channel :=
       {| channel_address := channel_address (msg_channel msg);
          channel_country := channel_country (msg_channel msg);
          channel_config := cfg |};
     msg_urn := msg_urn msg; msg_text := msg_text msg;
     msg_attachments := msg_attachments msg |}.

(** The parts [SendMsg] loops over. *)
Definition partsOf (h : Host) (msg : Msg) : list string :=
  handlers_SplitMsg h (handlers_GetTextAndAttachments h msg) maxMsgLength.

(** What [http.NewRequest] is called with, and returns, for one part. *)
Definition partRequest (h : Host) (msg : Msg) (part : string)
    : option http.Request * option error :=
  http_NewRequest h http.MethodPost
    (fmt.Sprintf sendURL (channel_address (msg_channel msg)))
    (json_Encode h
       {| Address := strings.TrimPrefix (urns_Path h (msg_urn msg)) "+";
          mt_Message := part;
          Passphrase := StringConfigForKey (msg_channel msg) configPassphrase "";
          AppID := StringConfigForKey (msg_channel msg) configAppID "";
          AppSecret := StringConfigForKey (msg_channel msg) configAppSecret "" |}).

(** The request as it is handed to the network. *)
Definition withHeaders (req : http.Request) : http.Request :=
  http.set_header "Accept" "application/json"
    (http.set_header "Content-Type" "application/json" req).

(** The log entry [SendMsg] appends for an exchange. *)
Definition logOf (msg : Msg) (ex : Exchange) : ChannelLog :=
  WithError "Message Send Error" (ex_err ex)
    (NewChannelLogFromRR "Message Sent" (msg_channel msg) (msg_id msg) (ex_rr ex)).

Definition dateLayout : string := "Mon Jan 2 2006 15:04:05 GMT+0000 (UTC)".

(** The two checks [ReceiveMessage] makes on an entry, in its order. *)
Definition entryCheck (h : Host) (glMsg : InboundSMSMessage) : result Time :=
  match time_Parse h dateLayout (DateTime glMsg) with
  | Err err => Err err
  | Ok date =>
      if strings.HasPrefix (SenderAddress glMsg) "tel:" then Ok date
      else Err "invalid 'senderAddress' parameter"
  end.

(** The message [ReceiveMessage] builds for an entry received on [date]. *)
Definition entryMsg (h : Host) (c : Channel) (glMsg : InboundSMSMessage)
    (date : Time) : IncomingMsg :=
  {| in_channel := c;
     in_urn :=
       urns_NewTelURNForCountry h (strings.from 4 (SenderAddress glMsg)) (channel_country c);
     in_text := Message glMsg;
     in_external_id := MessageID glMsg;
     in_received_on := Some date |}.

(** The messages of the entries that pass both checks. *)
Definition batchMsgs (h : Host) (c : Channel)
    (glMsgs : list InboundSMSMessage) : list IncomingMsg :=
  omap (fun glMsg =>
          match entryCheck h glMsg with
          | Ok date => Some (entryMsg h c glMsg date)
          | Err _ => None
          end) glMsgs.

Definition validEntry (h : Host) (glMsg : InboundSMSMessage) : Prop :=
  exists date, entryCheck h glMsg = Ok date.

Definition isMsgSuccess (resp : Response) : bool :=
  match resp with MsgSuccess _ => true | _ => false end.

Definition isRequestError (resp : Response) : bool :=
  match resp with RequestError _ => true | _ => false end.

(** The segments of a body put back together, nothing in between. *)
Definition joinParts (parts : list string) : string :=
  fold_right String.append EmptyString parts.

Definition totalLength (parts : list string) : nat :=
  fold_right (fun p n => String.length p + n) 0 parts.

(** The loop of [SendMsg] on a configured channel, entered with the three
    values it has read. *)
Definition sendLoop (h : Host) (msg : Msg) (parts : list string)
    (status : MsgStatus) (net : list Exchange) : Sent :=
  sendParts h msg
    (StringConfigForKey (msg_channel msg) configAppID "")
    (StringConfigForKey (msg_channel msg) configAppSecret "")
    (StringConfigForKey (msg_channel msg) configPassphrase "")
    parts status net.

(** The exchanges made by sending [parts] after [net] when every request is
    built and every call completes without a transport error; [None] as
    soon as one of them does not. *)
Fixpoint attemptAll (h : Host) (msg : Msg) (parts : list string)
    (net : list Exchange) : option (list Exchange) :=
  match parts with
  | [] => Some []
  | part :: parts' =>
      match partRequest h msg part with
      | (Some req, None) =>
          match utils_MakeHTTPRequest h net (withHeaders req) with
          | (rr, None) =>
              let ex := {| ex_request := withHeaders req; ex_rr := rr; ex_err := None |} in
              match attemptAll h msg parts' (net ++ [ex]) with
              | Some done => Some (ex :: done)
              | None => None
              end
          | (_, Some _) => None
          end
      | _ => None
      end
  end.

(** The status object after the exchanges [done], all without a transport
    error, have been logged on it. *)
Definition wiredWith (msg : Msg) (done : list Exchange) (status : MsgStatus) : MsgStatus :=
  fold_left (fun st ex => SetStatus MsgWired (AddLog (logOf msg ex) st)) done status.

(** The error of the first of the three checks of [SendMsg] that a channel
    does not pass, in the order [SendMsg] makes them. *)
Definition configCheck (c : Channel) : option error :=
  if String.eqb (StringConfigForKey c configAppID "") ""
  then Some "Missing 'app_id' config for GL channel"
  else if String.eqb (StringConfigForKey c configAppSecret "") ""
  then Some "Missing 'app_secret' config for GL channel"
  else if String.eqb (StringConfigForKey c configPassphrase "") ""
  then Some "Missing 'passphrase' config for GL channel"
  else None.

(** The request carries the two headers [SendMsg] sets. *)
Definition jsonHeaders (req : http.Request) : Prop :=
  http.Header req !! "Content-Type" = Some ["application/json"] /\
  http.Header req !! "Accept" = Some ["application/json"].

(** The exchange is the call made for the part: the request is the one
    [http.NewRequest] built for it, with the headers set. *)
Definition callFor (h : Host) (msg : Msg) (part : string) (ex : Exchange) : Prop :=
  exists req,
    partRequest h msg part = (Some req, None) /\ ex_request ex = withHeaders req.

(** The entries of the decoded payload; none when it does not decode. *)
Definition entriesOf (h : Host) (r : string) : list InboundSMSMessage :=
  match handlers_DecodeAndValidateJSON h r with
  | Ok glRequest => InboundSMSMessageList glRequest
  | Err _ => []
  end.

(** The entries all pass the checks and the backend, starting from the
    messages [written], stores the message of each in its turn. *)
Fixpoint storedAll (h : Host) (c : Channel) (glMsgs : list InboundSMSMessage)
    (written : list IncomingMsg) : bool :=
  match glMsgs with
  | [] => true
  | glMsg :: glMsgs' =>
      match entryCheck h glMsg with
      | Ok date =>
          match Backend_WriteMsg h written (entryMsg h c glMsg date) with
          | None => storedAll h c glMsgs' (written ++ [entryMsg h c glMsg date])
          | Some _ => false
          end
      | Err _ => false
      end
  end.

(** ** A concrete host, channel and messages *)

Module Sample.

Definition quote : string := String (ascii_of_nat 34) EmptyString.

Definition knownDate : string := "Fri Nov 22 2013 12:12:13 GMT+0000 (UTC)".

(** A parser that knows one date written in the layout. *)
Definition parse (layout value : string) : result Time :=
  if String.eqb layout dateLayout && String.eqb value knownDate
  then Ok 1385122333%Z
  else Err ("parsing time " +:+ value +:+ " as " +:+ layout).

Fixpoint hasControl (s : string) : bool :=
  match s with
  | EmptyString => false
  | String ch rest =>
      (nat_of_ascii ch <? 32) || (nat_of_ascii ch =? 127) || hasControl rest
  end.

(** [http.NewRequest] refuses a URL with a control character. *)
Definition newRequest (method url body : string) : option http.Request * option error :=
  if hasControl url
  then (None, Some "net/url: invalid control character in URL")
  else (Some {| http.Method := method; http.URL := url;
                http.Header := ∅; http.Body := body |}, None).

Definition field (name value : string) : string :=
  quote +:+ name +:+ quote +:+ ":" +:+ quote +:+ value +:+ quote.

Definition encode (m : mtMsg) : string :=
  "{" +:+ field "address" (Address m) +:+ "," +:+ field "message" (mt_Message m)
      +:+ "," +:+ field "passphrase" (Passphrase m) +:+ "," +:+ field "app_id" (AppID m)
      +:+ "," +:+ field "app_secret" (AppSecret m) +:+ "}".

Definition host (decoded : result moMsg)
    (net : list Exchange -> http.Request -> RequestResponse * option error)
    (db : list IncomingMsg -> IncomingMsg -> option error) : Host :=
  {| time_Parse := parse;
     urns_NewTelURNForCountry := fun number country => "tel:" +:+ number;
     urns_Path := strings.from 4;
     json_Encode := encode;
     http_NewRequest := newRequest;
     handlers_DecodeAndValidateJSON := fun _ => decoded;
     handlers_GetTextAndAttachments := msg_text;
     handlers_SplitMsg := handlers.SplitMsg;
     utils_MakeHTTPRequest := net;
     Backend_WriteMsg := db;
     ResponseWriter_Write := fun _ => None |}.

(** Networks: one that always answers, one whose answer carries an error
    of the vendor, one whose first call fails in transport. *)
Definition netOK (_ : list Exchange) (_ : http.Request) : RequestResponse * option error :=
  ({| rr_status_code := 201; rr_response_body := "{}" |}, None).

Definition netVendorError (_ : list Exchange) (_ : http.Request)
    : RequestResponse * option error :=
  ({| rr_status_code := 200; rr_response_body := "{error: Invalid passphrase}" |}, None).

Definition netFirstFails (done : list Exchange) (_ : http.Request)
    : RequestResponse * option error :=
  match done with
  | [] => ({| rr_status_code := 0; rr_response_body := "" |}, Some "connection refused")
  | _ :: _ => ({| rr_status_code := 201; rr_response_body := "{}" |}, None)
  end.

(** Backends: one that stores every message, one that is down. *)
Definition dbOK (_ : list IncomingMsg) (_ : IncomingMsg) : option error := None.
Definition dbDown (_ : list IncomingMsg) (_ : IncomingMsg) : option error :=
  Some "connection to the database lost".

Definition config : gmap string string :=
  <["app_id" := "my app id"]>
    (<["app_secret" := "my app secret"]> (<["passphrase" := "my passphrase"]> ∅)).

Definition channel : Channel :=
  {| channel_address := "21581234"; channel_country := "PH"; channel_config := config |}.

Fixpoint repeatChar (n : nat) (ch : ascii) : string :=
  match n with
  | O => EmptyString
  | S n' => String ch (repeatChar n' ch)
  end.

(** A body of 161 characters: 160 times [a], then [b]. *)
Definition body161 : string := repeatChar 160 "a"%char +:+ "b".

Definition msg (text : string) : Msg :=
  {| msg_id := 10%Z; msg_channel := channel; msg_urn := "tel:+639171234567";
     msg_text := text; msg_attachments := [] |}.

Definition entry (date sender text : string) : InboundSMSMessage :=
  {| DateTime := date; DestinationAddress := "tel:21581234"; MessageID := "";
     Message := text; SenderAddress := sender |}.

Definition hello : InboundSMSMessage := entry knownDate "tel:+639171234567" "Hello".
Definition noPrefix : InboundSMSMessage := entry knownDate "+639171234567" "Hi".
Definition badDate : InboundSMSMessage :=
  entry "2013-11-22T12:12:13Z" "tel:+639171234567" "Hi".

Definition batch (glMsgs : list InboundSMSMessage) : result moMsg :=
  Ok {| InboundSMSMessageList := glMsgs |}.

(** The request [newRequest] builds for a part of a message. *)
Definition request (msg : Msg) (part : string) : http.Request :=
  {| http.Method := "POST";
     http.URL := fmt.Sprintf sendURL (channel_address (msg_channel msg));
     http.Header := ∅;
     http.Body :=
       encode
         {| Address := strings.TrimPrefix (strings.from 4 (msg_urn msg)) "+";
            mt_Message := part;
            Passphrase := StringConfigForKey (msg_channel msg) configPassphrase "";
            AppID := StringConfigForKey (msg_channel msg) configAppID "";
            AppSecret := StringConfigForKey (msg_channel msg) configAppSecret "" |} |}.

(** The hosts of the examples. *)
Definition hostOK : Host := host (batch [hello]) netOK dbOK.
Definition hostVendorError : Host := host (batch [hello]) netVendorError dbOK.
Definition hostFirstFails : Host := host (batch [hello]) netFirstFails dbOK.
Definition hostDbDown : Host := host (batch [hello]) netOK dbDown.
Definition hostNoPrefix : Host := host (batch [hello; noPrefix; hello]) netOK dbOK.
Definition hostBadDate : Host := host (batch [hello; badDate; hello]) netOK dbOK.
Definition hostEmpty : Host := host (batch []) netOK dbOK.

(** A message on a channel whose address cannot be part of a URL. *)
Definition msgBadAddress : Msg :=
  {| msg_id := 11%Z;
     msg_channel :=
       {| channel_address := String (ascii_of_nat 127) "21581234";
          channel_country := "PH"; channel_config := config |};
     msg_urn := "tel:+639171234567"; msg_text := "hello"; msg_attachments := [] |}.

(** A backend that stores a first message and refuses any other, and the
    hosts of a batch that repeats an entry and of a batch with a bad date
    on that backend. *)
Definition dbOnlyOne (stored : list IncomingMsg) (_ : IncomingMsg) : option error :=
  match stored with
  | [] => None
  | _ :: _ => Some "message already stored"
  end.

Definition hostRepeated : Host := host (batch [hello; hello]) netOK dbOnlyOne.

Definition hostBadDateDown : Host := host (batch [hello; badDate]) netOK dbDown.

End Sample.

(** * Properties *)

(** ** Strings *)

Section Strings.

Lemma str_app_nil_r (s : string) : s +:+ "" = s.
Proof.
  induction s as [|ch s IH]; [reflexivity|].
  change (String ch (s +:+ "") = String ch s). by rewrite IH.
Qed.

Lemma str_app_assoc (s t u : string) : (s +:+ t) +:+ u = s +:+ (t +:+ u).
Proof.
  induction s as [|ch s IH]; [reflexivity|].
  change (String ch ((s +:+ t) +:+ u) = String ch (s +:+ (t +:+ u))).
  by rewrite IH.
Qed.

Lemma str_length_app (s t : string) :
  String.length (s +:+ t) = String.length s + String.length t.
Proof.
  induction s as [|ch s IH]; [reflexivity|].
  change (S (String.length (s +:+ t)) = S (String.length s + String.length t)).
  by rewrite IH.
Qed.

Lemma str_length_0 (s : string) : String.length s = 0 -> s = "".
Proof. by destruct s. Qed.

(** A string that starts with [prefix] is [prefix] followed by what
    [s[len(prefix):]] keeps. *)
Lemma HasPrefix_from (s prefix : string) :
  strings.HasPrefix s prefix = true ->
  s = prefix +:+ strings.from (String.length prefix) s.
Proof.
  unfold strings.HasPrefix. revert s.
  induction prefix as [|ch prefix IH]; intros s Hp.
  - by destruct s.
  - destruct s as [|ch' s]; [discriminate|]. simpl in Hp.
    destruct (ascii_dec ch ch') as [->|]; [|discriminate].
    change (String ch' s = String ch' (prefix +:+ strings.from (String.length prefix) s)).
    f_equal. by apply IH.
Qed.

End Strings.

(** ** Segmentation *)

Section Segmentation.

Lemma splitParts_join (max : nat) (text part : string) :
  joinParts (handlers.splitParts max part text) = part +:+ text.
Proof.
  revert part. induction text as [|r rest IH]; intros part; simpl.
  - destruct (0 <? String.length part) eqn:Hlen; simpl.
    + reflexivity.
    + apply Nat.ltb_ge in Hlen.
      by rewrite (str_length_0 part) by lia.
  - destruct (String.length (part +:+ String r "") =? max); simpl.
    + rewrite IH. change ("" +:+ rest) with rest.
      by rewrite str_app_assoc.
    + rewrite IH. by rewrite str_app_assoc.
Qed.

Lemma splitParts_bound (max : nat) (text part : string) :
  String.length part < max ->
  Forall (fun p => String.length p <= max) (handlers.splitParts max part text).
Proof.
  revert part. induction text as [|r rest IH]; intros part Hlt; simpl.
  - destruct (0 <? String.length part); constructor; [lia | constructor].
  - pose proof (str_length_app part (String r "")) as Hlen. simpl in Hlen.
    destruct (String.length (part +:+ String r "") =? max) eqn:Hmax.
    + apply Nat.eqb_eq in Hmax. constructor; [lia|].
      apply IH. simpl. lia.
    + apply Nat.eqb_neq in Hmax. apply IH. lia.
Qed.

(** What is left does not fill a segment: it is the last one. *)
Lemma splitParts_rest (max : nat) (text part : string) :
  String.length part + String.length text < max ->
  0 < String.length part + String.length text ->
  handlers.splitParts max part text = [part +:+ text].
Proof.
  revert part. induction text as [|r rest IH]; intros part Hlt Hpos; simpl in *.
  - rewrite str_app_nil_r.
    destruct (0 <? String.length part) eqn:H0; [reflexivity|].
    apply Nat.ltb_ge in H0. lia.
  - pose proof (str_length_app part (String r "")) as Hlen. simpl in Hlen.
    destruct (String.length (part +:+ String r "") =? max) eqn:Hmax.
    + apply Nat.eqb_eq in Hmax. lia.
    + rewrite IH by lia. by rewrite str_app_assoc.
Qed.

(** What is left fills a segment: the segment is cut off, and the split
    goes on after it with an empty one. *)
Lemma splitParts_cut (max : nat) (text part : string) :
  String.length part < max ->
  max <= String.length part + String.length text ->
  exists seg rest,
    part +:+ text = seg +:+ rest /\ String.length seg = max /\
    handlers.splitParts max part text = seg :: handlers.splitParts max "" rest.
Proof.
  revert part. induction text as [|r rest IH]; intros part Hlt Hge; simpl in *.
  - lia.
  - pose proof (str_length_app part (String r "")) as Hlen. simpl in Hlen.
    destruct (String.length (part +:+ String r "") =? max) eqn:Hmax.
    + apply Nat.eqb_eq in Hmax.
      exists (part +:+ String r ""), rest.
      split; [by rewrite str_app_assoc | by split].
    + apply Nat.eqb_neq in Hmax.
      destruct (IH (part +:+ String r "")) as (seg & rest' & Heq & Hseg & Hsplit);
        [lia | lia |].
      exists seg, rest'. rewrite <- Heq, str_app_assoc. by split.
Qed.

Lemma totalLength_join (parts : list string) :
  totalLength parts = String.length (joinParts parts).
Proof.
  induction parts as [|p parts IH]; [reflexivity|].
  simpl. by rewrite str_length_app, IH.
Qed.

Lemma SplitMsg_join (text : string) (max : nat) :
  joinParts (handlers.SplitMsg text max) = text.
Proof.
  unfold handlers.SplitMsg. destruct (String.length text <=? max).
  - simpl. apply str_app_nil_r.
  - apply splitParts_join.
Qed.

Lemma SplitMsg_bound (text : string) (max : nat) :
  0 < max ->
  Forall (fun p => String.length p <= max) (handlers.SplitMsg text max).
Proof.
  intros Hmax. unfold handlers.SplitMsg. destruct (String.length text <=? max) eqn:Hfit.
  - apply Nat.leb_le in Hfit. by repeat constructor.
  - apply Nat.leb_gt in Hfit. apply splitParts_bound. simpl. lia.
Qed.

(** One character more than a segment holds makes two segments. *)
Lemma SplitMsg_one_over (text : string) (max : nat) :
  1 < max -> String.length text = S max ->
  length (handlers.SplitMsg text max) = 2.
Proof.
  intros Hmax Hlen. unfold handlers.SplitMsg.
  destruct (String.length text <=? max) eqn:Hfit.
  { apply Nat.leb_le in Hfit. lia. }
  destruct (splitParts_cut max text "") as (seg & rest & Heq & Hseg & ->);
    [simpl; lia | simpl; lia |].
  change ("" +:+ text) with text in Heq.
  assert (String.length rest = 1) as Hrest.
  { apply (f_equal String.length) in Heq. rewrite str_length_app in Heq. lia. }
  rewrite splitParts_rest by (simpl; lia). reflexivity.
Qed.

End Segmentation.

(** C3. Segmentation with the handler's maximum length of 160 gives an
    ordered sequence of segments, none longer than 160, whose concatenation
    is the body itself, no character duplicated or lost; a body of 161
    characters gives exactly 2 segments, 161 characters in all. *)
Theorem SplitMsg_roundtrip (text : string) :
  Forall (fun p => String.length p <= 160) (handlers.SplitMsg text maxMsgLength) /\
  joinParts (handlers.SplitMsg text maxMsgLength) = text /\
  (String.length text = 161 ->
   length (handlers.SplitMsg text maxMsgLength) = 2 /\
   totalLength (handlers.SplitMsg text maxMsgLength) = 161).
Proof.
  split; [|split].
  - apply SplitMsg_bound. unfold maxMsgLength. lia.
  - apply SplitMsg_join.
  - intros Hlen. split.
    + apply SplitMsg_one_over; unfold maxMsgLength; lia.
    + by rewrite totalLength_join, SplitMsg_join.
Qed.

Lemma SplitMsg_roundtrip_witness :
  String.length Sample.body161 = 161 /\
  length (handlers.SplitMsg Sample.body161 maxMsgLength) = 2 /\
  totalLength (handlers.SplitMsg Sample.body161 maxMsgLength) = 161.
Proof.
  split; [reflexivity|].
  apply (proj2 (proj2 (SplitMsg_roundtrip Sample.body161))). reflexivity.
Defined.

(** ** The loop of SendMsg *)

Section SendLoop.

Context (h : Host) (msg : Msg).

Lemma SendMsg_configured :
  configured (msg_channel msg) ->
  SendMsg h msg =
  sendLoop h msg (partsOf h msg)
    (NewMsgStatusForID (msg_channel msg) (msg_id msg) MsgErrored) [].
Proof.
  intros (Hid & Hsecret & Hpass). unfold SendMsg.
  apply String.eqb_neq in Hid, Hsecret, Hpass.
  by rewrite Hid, Hsecret, Hpass.
Qed.

(** One turn of the loop, by what the request and the call come to. *)
Lemma sendLoop_cons (part : string) (parts : list string)
    (status : MsgStatus) (net : list Exchange) :
  sendLoop h msg (part :: parts) status net =
  match partRequest h msg part with
  | (None, _) =>
      {| sent_result := Panicked; sent_status := Some status; sent_net := net |}
  | (Some req, Some err) =>
      {| sent_result := Returned (None, Some err);
         sent_status := Some status; sent_net := net |}
  | (Some req, None) =>
      let '(rr, err) := utils_MakeHTTPRequest h net (withHeaders req) in
      let ex := {| ex_request := withHeaders req; ex_rr := rr; ex_err := err |} in
      match err with
      | Some _ =>
          {| sent_result := Returned (Some (AddLog (logOf msg ex) status), None);
             sent_status := Some (AddLog (logOf msg ex) status);
             sent_net := net ++ [ex] |}
      | None =>
          sendLoop h msg parts (SetStatus MsgWired (AddLog (logOf msg ex) status))
            (net ++ [ex])
      end
  end.
Proof.
  unfold sendLoop, partRequest. cbn [sendParts].
  destruct (http_NewRequest h _ _ _) as [[req|] [err|]]; reflexivity.
Qed.

Lemma wiredWith_logs (done : list Exchange) (status : MsgStatus) :
  status_logs (wiredWith msg done status) =
  status_logs status ++ map (logOf msg) done.
Proof.
  revert status. induction done as [|ex done IH]; intros status; simpl.
  - by rewrite app_nil_r.
  - unfold wiredWith in *. simpl. rewrite IH. simpl. by rewrite <- app_assoc.
Qed.

Lemma wiredWith_value (done : list Exchange) (status : MsgStatus) :
  status_value (wiredWith msg done status) =
  match done with [] => status_value status | _ :: _ => MsgWired end.
Proof.
  revert status. induction done as [|ex done IH]; intros status; [reflexivity|].
  unfold wiredWith in *. simpl. rewrite IH. by destruct done.
Qed.

Lemma attemptAll_length (parts : list string) :
  forall net done, attemptAll h msg parts net = Some done -> length done = length parts.
Proof.
  induction parts as [|part parts IH]; intros net done Hdone; simpl in Hdone.
  - by inversion Hdone.
  - destruct (partRequest h msg part) as [[req|] [err|]]; try discriminate.
    destruct (utils_MakeHTTPRequest h net (withHeaders req)) as [rr [err|]];
      try discriminate.
    destruct (attemptAll h msg parts _) as [done'|] eqn:Hrest; [|discriminate].
    inversion Hdone; subst. simpl. f_equal. by eapply IH.
Qed.

(** Parts that are all sent without failure take the loop to the parts
    after them. *)
Lemma sendLoop_attemptAll (pre rest : list string) :
  forall status net done,
    attemptAll h msg pre net = Some done ->
    sendLoop h msg (pre ++ rest) status net =
    sendLoop h msg rest (wiredWith msg done status) (net ++ done).
Proof.
  induction pre as [|part pre IH]; intros status net done Hdone; simpl in Hdone.
  - inversion Hdone; subst. by rewrite app_nil_r.
  - change ((part :: pre) ++ rest) with (part :: (pre ++ rest)).
    rewrite sendLoop_cons.
    destruct (partRequest h msg part) as [[req|] [err|]]; try discriminate.
    destruct (utils_MakeHTTPRequest h net (withHeaders req)) as [rr [err|]];
      try discriminate.
    destruct (attemptAll h msg pre _) as [done'|] eqn:Hrest; [|discriminate].
    inversion Hdone; subst.
    rewrite (IH _ _ _ Hrest). by rewrite <- app_assoc.
Qed.

(** The loop ends in this turn before any call is made: nothing is added
    to the exchanges, the logs or the status. *)
Ltac loop_stops_here status :=
  exists [], status; simpl; rewrite ?app_nil_r;
  split; [done|]; split; [done|]; split; [done|]; split;
  [ split; [by left | intros [?|Hex]; [done | inversion Hex]]
  | intros ? ? ?; by simplify_eq ].

(** What the loop leaves behind, however it ends: the exchanges it added,
    one log entry for each, and a status that is wired exactly when it
    was before or one of the exchanges had no transport error. *)
Lemma sendLoop_inv (parts : list string) :
  forall status net, exists new st,
    sent_net (sendLoop h msg parts status net) = net ++ new /\
    sent_status (sendLoop h msg parts status net) = Some st /\
    status_logs st = status_logs status ++ map (logOf msg) new /\
    (status_value st = MsgWired <->
     status_value status = MsgWired \/ Exists (fun ex => ex_err ex = None) new) /\
    (forall st' e,
        sent_result (sendLoop h msg parts status net) = Returned (Some st', e) ->
        st' = st /\ e = None).
Proof.
  induction parts as [|part parts IH]; intros status net.
  - loop_stops_here status.
  - rewrite sendLoop_cons.
    destruct (partRequest h msg part) as [[req|] [err|]];
      [loop_stops_here status | | loop_stops_here status..].
    destruct (utils_MakeHTTPRequest h net (withHeaders req)) as [rr [err|]].
    + eexists [_], _. simpl.
      split; [done|]. split; [done|]. split; [done|]. split.
      * split; [by left|]. intros [?|Hex]; [done|].
        inversion Hex as [?? Hok|?? Hex']; [discriminate Hok | inversion Hex'].
      * intros st' e Hres. by simplify_eq.
    + destruct (IH (SetStatus MsgWired
                      (AddLog (logOf msg {| ex_request := withHeaders req;
                                            ex_rr := rr; ex_err := None |}) status))
                   (net ++ [ {| ex_request := withHeaders req;
                                ex_rr := rr; ex_err := None |} ]))
        as (new & st & Hnet & Hst & Hlogs & Hval & Hres).
      exists ({| ex_request := withHeaders req; ex_rr := rr; ex_err := None |} :: new), st.
      simpl. rewrite Hnet, Hst, Hlogs. simpl. rewrite <- !app_assoc.
      split; [done|]. split; [done|]. split; [done|]. split; [|exact Hres].
      split.
      * intros _. right. by constructor.
      * intros _. apply Hval. by left.
Qed.

(** The error branch after [http.NewRequest] is taken only for a request
    that is not nil. *)
Lemma sendLoop_request_error (parts : list string) :
  forall status net err,
    sent_result (sendLoop h msg parts status net) = Returned (None, Some err) ->
    exists part req, In part parts /\ partRequest h msg part = (Some req, Some err).
Proof.
  induction parts as [|part parts IH]; intros status net err Hres.
  - discriminate Hres.
  - rewrite sendLoop_cons in Hres.
    destruct (partRequest h msg part) as [[req|] [err'|]] eqn:Hreq.
    + simpl in Hres. inversion Hres; subst. exists part, req. split; [by left | done].
    + destruct (utils_MakeHTTPRequest h net (withHeaders req)) as [rr [err'|]].
      * discriminate Hres.
      * destruct (IH _ _ _ Hres) as (part' & req' & Hin & Hreq').
        exists part', req'. split; [by right | done].
    + discriminate Hres.
    + discriminate Hres.
Qed.

End SendLoop.

(** ** The calls of a send *)

Section SendCalls.

Context (h : Host) (msg : Msg).

Lemma configCheck_cases (c : Channel) :
  (configured c /\ configCheck c = None) \/
  (~ configured c /\ exists e, configCheck c = Some e).
Proof.
  unfold configured, configCheck.
  destruct (String.eqb (StringConfigForKey c configAppID "") "") eqn:Hid.
  { right. apply String.eqb_eq in Hid. split; [tauto | eauto]. }
  destruct (String.eqb (StringConfigForKey c configAppSecret "") "") eqn:Hsecret.
  { right. apply String.eqb_eq in Hsecret. split; [tauto | eauto]. }
  destruct (String.eqb (StringConfigForKey c configPassphrase "") "") eqn:Hpass.
  { right. apply String.eqb_eq in Hpass. split; [tauto | eauto]. }
  left. apply String.eqb_neq in Hid, Hsecret, Hpass. tauto.
Qed.

Lemma withHeaders_jsonHeaders (req : http.Request) : jsonHeaders (withHeaders req).
Proof.
  unfold jsonHeaders, withHeaders, http.set_header, http.Header_Set. simpl. split.
  - rewrite lookup_insert_ne by done. apply lookup_insert_eq.
  - apply lookup_insert_eq.
Qed.

(** The loop ends in this turn before any call is made. *)
Ltac no_call_here :=
  exists []; simpl; rewrite ?app_nil_r;
  split; [done|]; split; [constructor|];
  split; [by intros [|?] ? ?|]; split; [by intros [|?] ? ?|];
  intros ? ? ?; by simplify_eq.

(** The exchanges the loop adds: one for each of the leading parts, in
    their order and made after the ones before it; a call that failed is
    the last one and the status is returned after it; and a status
    returned after calls that all completed comes after a call for every
    part. *)
Lemma sendLoop_calls (parts : list string) :
  forall status net, exists new,
    sent_net (sendLoop h msg parts status net) = net ++ new /\
    Forall2 (callFor h msg) (take (length new) parts) new /\
    (forall i ex, new !! i = Some ex ->
        utils_MakeHTTPRequest h (net ++ take i new) (ex_request ex)
        = (ex_rr ex, ex_err ex)) /\
    (forall i ex, new !! i = Some ex -> ex_err ex <> None ->
        length new = S i /\
        exists st, sent_result (sendLoop h msg parts status net) = Returned (Some st, None)) /\
    (forall st e,
        sent_result (sendLoop h msg parts status net) = Returned (Some st, e) ->
        Forall (fun ex => ex_err ex = None) new -> length new = length parts).
Proof.
  induction parts as [|part parts IH]; intros status net.
  - exists []. simpl. rewrite app_nil_r.
    split; [done|]. split; [constructor|].
    split; [by intros [|?] ? ?|]. split; [by intros [|?] ? ?|]. done.
  - rewrite sendLoop_cons.
    destruct (partRequest h msg part) as [[req|] [err|]] eqn:Hreq;
      [no_call_here | | no_call_here..].
    destruct (utils_MakeHTTPRequest h net (withHeaders req)) as [rr [err|]] eqn:Hcall.
    + exists [ {| ex_request := withHeaders req; ex_rr := rr; ex_err := Some err |} ].
      simpl. split; [done|]. split.
      { constructor; [by exists req | constructor]. }
      split.
      { intros [|i] ex Hex; [|by destruct i]. simplify_eq/=. by rewrite app_nil_r. }
      split.
      { intros [|i] ex Hex _; [|by destruct i]. eauto. }
      intros st e _ Hall. by inversion Hall.
    + destruct (IH (SetStatus MsgWired
                      (AddLog (logOf msg {| ex_request := withHeaders req;
                                            ex_rr := rr; ex_err := None |}) status))
                   (net ++ [ {| ex_request := withHeaders req;
                                ex_rr := rr; ex_err := None |} ]))
        as (new & Hnet & Hparts & Horacle & Hfail & Hall).
      exists ({| ex_request := withHeaders req; ex_rr := rr; ex_err := None |} :: new).
      simpl. rewrite Hnet, <- app_assoc.
      split; [done|]. split.
      { constructor; [by exists req | done]. }
      split.
      { intros [|i] ex Hex; simplify_eq/=.
        - by rewrite app_nil_r.
        - specialize (Horacle i ex Hex). by rewrite <- app_assoc in Horacle. }
      split.
      { intros [|i] ex Hex Herr; simplify_eq/=.
        destruct (Hfail i ex Hex Herr) as [Hlen Hres]. split; [by rewrite Hlen | done]. }
      intros st e Hres Hok. inversion Hok; subst. f_equal. by eapply Hall.
Qed.

(** The status object stays the one of the message and of its channel. *)
Lemma sendLoop_status_identity (parts : list string) :
  forall status net st,
    sent_status (sendLoop h msg parts status net) = Some st ->
    status_channel st = status_channel status /\ status_id st = status_id status.
Proof.
  induction parts as [|part parts IH]; intros status net st.
  - simpl. by intros [= <-].
  - rewrite sendLoop_cons.
    destruct (partRequest h msg part) as [[req|] [err|]]; simpl;
      try by intros [= <-].
    destruct (utils_MakeHTTPRequest h net (withHeaders req)) as [rr [err|]]; simpl.
    + by intros [= <-].
    + intros Hst. by destruct (IH _ _ _ Hst).
Qed.

(** How the loop can end, and on which request. *)
Lemma sendLoop_result (parts : list string) :
  forall status net,
    (exists st,
        sent_result (sendLoop h msg parts status net) = Returned (Some st, None)) \/
    (exists e part req,
        sent_result (sendLoop h msg parts status net) = Returned (None, Some e) /\
        In part parts /\ partRequest h msg part = (Some req, Some e)) \/
    (sent_result (sendLoop h msg parts status net) = Panicked /\
     exists part err, In part parts /\ partRequest h msg part = (None, err)).
Proof.
  induction parts as [|part parts IH]; intros status net.
  - left. by eexists.
  - rewrite sendLoop_cons.
    destruct (partRequest h msg part) as [[req|] [err|]] eqn:Hreq.
    + right; left. exists err, part, req. simpl. by auto.
    + destruct (utils_MakeHTTPRequest h net (withHeaders req)) as [rr [err|]].
      * left. by eexists.
      * destruct (IH (SetStatus MsgWired
                        (AddLog (logOf msg {| ex_request := withHeaders req;
                                              ex_rr := rr; ex_err := None |}) status))
                     (net ++ [ {| ex_request := withHeaders req;
                                  ex_rr := rr; ex_err := None |} ]))
          as [Hst | [(e & part' & req' & Hres & Hin & Hreq') | (Hres & part' & err' & Hin & Hreq')]].
        -- by left.
        -- right; left. exists e, part', req'. simpl. by auto.
        -- right; right. split; [done|]. exists part', err'. simpl. by auto.
    + right; right. split; [done|]. exists part, (Some err). simpl. by auto.
    + right; right. split; [done|]. exists part, None. simpl. by auto.
Qed.

(** With a status that is still [MsgErrored], the first call decides: the
    status object ends [MsgWired] exactly when there is a first part, its
    request is built and the network completes the call for it. *)
Lemma sendLoop_first_call (parts : list string) :
  forall status net st,
    sent_status (sendLoop h msg parts status net) = Some st ->
    status_value status = MsgErrored ->
    (status_value st = MsgWired <->
     exists part req rr,
       parts !! 0 = Some part /\
       partRequest h msg part = (Some req, None) /\
       utils_MakeHTTPRequest h net (withHeaders req) = (rr, None)).
Proof.
  intros status net st. destruct parts as [|part parts].
  - simpl. intros [= <-] Herr. split; [congruence|]. by intros (? & ? & ? & ? & _).
  - rewrite sendLoop_cons.
    destruct (partRequest h msg part) as [[req|] [err|]] eqn:Hreq.
    + simpl. intros [= <-] Herr. split; [congruence|].
      intros (p & r & rr & [= <-] & Hr & _). congruence.
    + destruct (utils_MakeHTTPRequest h net (withHeaders req)) as [rr [err|]] eqn:Hcall.
      * simpl. intros [= <-] Herr. split; [simpl; congruence|].
        intros (p & r & rr' & [= <-] & Hr & Hc).
        rewrite Hreq in Hr. injection Hr as <-. rewrite Hcall in Hc. discriminate Hc.
      * cbv zeta. intros Hst _. split; [intros _; by exists part, req, rr|]. intros _.
        destruct (sendLoop_inv h msg parts
                    (SetStatus MsgWired
                       (AddLog (logOf msg {| ex_request := withHeaders req;
                                             ex_rr := rr; ex_err := None |}) status))
                    (net ++ [ {| ex_request := withHeaders req;
                                 ex_rr := rr; ex_err := None |} ]))
          as (new & st' & _ & Hst' & _ & Hval & _).
        rewrite Hst in Hst'. injection Hst' as <-. apply Hval. by left.
    + simpl. intros [= <-] Herr. split; [congruence|].
      intros (p & r & rr & [= <-] & Hr & _). congruence.
    + simpl. intros [= <-] Herr. split; [congruence|].
      intros (p & r & rr & [= <-] & Hr & _). congruence.
Qed.

End SendCalls.

(** ** SendMsg: status and logs *)

(** C4. When the channel has its three configuration values, the loop is
    entered with a status that is [MsgErrored] and has no log entry, and
    the status object ends [MsgWired] exactly when one of the network calls
    made completed without a transport error, whatever the response it
    brought back; it ends [MsgErrored] exactly when none did. The calls
    made are calls of the network for the parts, in their order, each made
    after the calls before it, and since a failed call ends the send the
    status is [MsgWired] exactly when there is a first part and the network
    completes the call for it. The status returned, when one is, is that
    object. *)
Theorem SendMsg_wired_iff_call_succeeded (h : Host) (msg : Msg) :
  configured (msg_channel msg) ->
  SendMsg h msg =
    sendLoop h msg (partsOf h msg)
      (NewMsgStatusForID (msg_channel msg) (msg_id msg) MsgErrored) [] /\
  exists st,
    sent_status (SendMsg h msg) = Some st /\
    (status_value st = MsgWired <->
     exists ex, In ex (sent_net (SendMsg h msg)) /\ ex_err ex = None) /\
    (status_value st = MsgErrored <->
     forall ex, In ex (sent_net (SendMsg h msg)) -> ex_err ex <> None) /\
    (forall st' e, sent_result (SendMsg h msg) = Returned (Some st', e) -> st' = st) /\
    Forall2 (callFor h msg)
      (take (length (sent_net (SendMsg h msg))) (partsOf h msg))
      (sent_net (SendMsg h msg)) /\
    (forall i ex,
        sent_net (SendMsg h msg) !! i = Some ex ->
        utils_MakeHTTPRequest h (take i (sent_net (SendMsg h msg))) (ex_request ex)
        = (ex_rr ex, ex_err ex)) /\
    (status_value st = MsgWired <->
     exists part req rr,
       partsOf h msg !! 0 = Some part /\
       partRequest h msg part = (Some req, None) /\
       utils_MakeHTTPRequest h [] (withHeaders req) = (rr, None)).
Proof.
  intros Hconf. split; [by apply SendMsg_configured|].
  rewrite (SendMsg_configured h msg Hconf).
  destruct (sendLoop_inv h msg (partsOf h msg)
              (NewMsgStatusForID (msg_channel msg) (msg_id msg) MsgErrored) [])
    as (new & st & Hnet & Hst & _ & Hval & Hres).
  destruct (sendLoop_calls h msg (partsOf h msg)
              (NewMsgStatusForID (msg_channel msg) (msg_id msg) MsgErrored) [])
    as (new' & Hnet' & Hparts & Horacle & _).
  pose proof (sendLoop_first_call h msg (partsOf h msg) _ [] st Hst eq_refl) as Hfirst.
  exists st. rewrite Hnet in *. simpl in *. subst new'.
  assert (status_value st = MsgWired <-> exists ex, In ex new /\ ex_err ex = None) as Hwired.
  { rewrite Hval, List.Exists_exists. split.
    - intros [Hinit|Hex]; [discriminate Hinit | exact Hex].
    - intros Hex. by right. }
  split; [done|]. split; [done|]. split; [|split; [|split; [done|split; [done|done]]]].
  - split.
    + intros Herr ex Hin Hok.
      assert (status_value st = MsgWired) as Hw by (apply Hwired; eauto).
      congruence.
    + intros Hall. destruct (status_value st) eqn:Hv; [done|].
      destruct (proj1 Hwired eq_refl) as (ex & Hin & Hok). by destruct (Hall ex Hin).
  - intros st' e Hret. by destruct (Hres st' e Hret).
Qed.

Lemma SendMsg_wired_iff_call_succeeded_witness :
  configured (msg_channel (Sample.msg "hello")) /\
  exists st,
    sent_status (SendMsg Sample.hostVendorError (Sample.msg "hello")) = Some st /\
    status_value st = MsgWired.
Proof.
  assert (configured (msg_channel (Sample.msg "hello"))) as Hconf.
  { repeat split; vm_compute; discriminate. }
  split; [exact Hconf|].
  destruct (SendMsg_wired_iff_call_succeeded Sample.hostVendorError (Sample.msg "hello") Hconf)
    as (_ & st & Hst & Hwired & _).
  exists st. split; [exact Hst|].
  apply Hwired. eexists. split; [left; reflexivity | reflexivity].
Defined.

(** The claim C1 fails on a send of two parts whose first call fails in
    transport while any later call would complete: the second part is never
    sent, the status returned is [MsgErrored] and it has one log entry. *)
Lemma SendMsg_first_failure_ends_send :
  length (partsOf Sample.hostFirstFails (Sample.msg Sample.body161)) = 2 /\
  (forall req, snd (utils_MakeHTTPRequest Sample.hostFirstFails [] req) <> None) /\
  (forall ex done req,
      snd (utils_MakeHTTPRequest Sample.hostFirstFails (ex :: done) req) = None) /\
  exists st,
    sent_result (SendMsg Sample.hostFirstFails (Sample.msg Sample.body161))
      = Returned (Some st, None) /\
    status_value st = MsgErrored /\
    length (status_logs st) = 1 /\
    length (sent_net (SendMsg Sample.hostFirstFails (Sample.msg Sample.body161))) = 1.
Proof.
  split; [reflexivity|]. split; [by intros req|]. split; [by intros ex done req|].
  eexists. split; [vm_compute; reflexivity|]. by repeat split.
Qed.

(** C1, amended. A transport failure ends the send: when the parts before
    a part are all sent without failure and the call for that part fails,
    [SendMsg] returns at once with the status object. One log entry was
    appended for each call made, in order, the failed one last; no part
    after it is attempted. The status is [MsgWired] when some part came
    before and [MsgErrored] when the failing part is the first: of two
    parts whose first call fails, one log entry and [MsgErrored]. *)
Theorem SendMsg_stops_at_first_failure (h : Host) (msg : Msg)
    (pre post : list string) (part : string) (done : list Exchange)
    (req : http.Request) (rr : RequestResponse) (e : error) :
  configured (msg_channel msg) ->
  partsOf h msg = pre ++ part :: post ->
  attemptAll h msg pre [] = Some done ->
  partRequest h msg part = (Some req, None) ->
  utils_MakeHTTPRequest h done (withHeaders req) = (rr, Some e) ->
  let failed := {| ex_request := withHeaders req; ex_rr := rr; ex_err := Some e |} in
  exists st,
    SendMsg h msg =
      {| sent_result := Returned (Some st, None);
         sent_status := Some st;
         sent_net := done ++ [failed] |} /\
    status_logs st = map (logOf msg) (done ++ [failed]) /\
    length (status_logs st) = S (length pre) /\
    (status_value st = MsgErrored <-> pre = []) /\
    (status_value st = MsgWired <-> pre <> []).
Proof.
  intros Hconf Hparts Hdone Hreq Hcall failed.
  rewrite (SendMsg_configured h msg Hconf), Hparts.
  rewrite (sendLoop_attemptAll h msg pre (part :: post) _ _ _ Hdone).
  rewrite sendLoop_cons, Hreq. simpl. rewrite Hcall.
  eexists. split; [reflexivity|]. simpl.
  rewrite wiredWith_logs, wiredWith_value. simpl.
  pose proof (attemptAll_length h msg pre [] done Hdone) as Hlen.
  split; [by rewrite map_app|]. split.
  - rewrite length_app, length_map. simpl. lia.
  - destruct done, pre; simpl in *; try discriminate; by split.
Qed.

Lemma SendMsg_stops_at_first_failure_witness :
  exists st,
    sent_result (SendMsg Sample.hostFirstFails (Sample.msg Sample.body161))
      = Returned (Some st, None) /\
    length (status_logs st) = 1 /\
    status_value st = MsgErrored.
Proof.
  assert (configured (msg_channel (Sample.msg Sample.body161))) as Hconf.
  { repeat split; vm_compute; discriminate. }
  destruct (SendMsg_stops_at_first_failure Sample.hostFirstFails
              (Sample.msg Sample.body161) []
              ["b"] (Sample.repeatChar 160 "a"%char) []
              (Sample.request (Sample.msg Sample.body161) (Sample.repeatChar 160 "a"%char))
              {| rr_status_code := 0; rr_response_body := "" |} "connection refused"
              Hconf eq_refl eq_refl eq_refl eq_refl)
    as (st & Hsent & _ & Hlen & Herr & _).
  exists st. rewrite Hsent. split; [reflexivity|]. split; [exact Hlen|].
  by apply Herr.
Defined.

(** ** SendMsg: configuration *)

Section Configuration.

Context (h : Host).

Lemma SendMsg_configCheck (msg : Msg) (e : error) :
  configCheck (msg_channel msg) = Some e ->
  SendMsg h msg =
  {| sent_result := Returned (None, Some e); sent_status := None; sent_net := [] |}.
Proof.
  unfold configCheck, SendMsg, fmt.Errorf.
  destruct (String.eqb (StringConfigForKey _ configAppID "") "");
    [by intros [= <-]|].
  destruct (String.eqb (StringConfigForKey _ configAppSecret "") "");
    [by intros [= <-]|].
  destruct (String.eqb (StringConfigForKey _ configPassphrase "") "");
    [by intros [= <-] | discriminate].
Qed.

Lemma configCheck_error (c : Channel) (e : error) :
  configCheck c = Some e -> In e configErrors.
Proof.
  unfold configCheck, configErrors.
  repeat (destruct (String.eqb _ ""); [intros [= <-]; simpl; tauto|]).
  discriminate.
Qed.

Lemma configCheck_missing (c : Channel) (key : string) :
  In key requiredKeys -> StringConfigForKey c key "" = "" ->
  exists e, configCheck c = Some e.
Proof.
  unfold requiredKeys, configCheck.
  intros [<-|[<-|[<-|[]]]] ->; simpl;
    repeat match goal with
           | |- context [String.eqb ?s ""] => destruct (String.eqb s "")
           end; eauto.
Qed.

(** A key bound to the empty string reads like a key that is not bound. *)
Lemma StringConfigForKey_empty (msg : Msg) (cfg : gmap string string) (key k : string) :
  StringConfigForKey (msg_channel (withConfig (<[key := ""]> cfg) msg)) k "" =
  StringConfigForKey (msg_channel (withConfig (delete key cfg) msg)) k "".
Proof.
  unfold StringConfigForKey. simpl.
  destruct (decide (key = k)) as [->|Hne].
  - by rewrite lookup_insert_eq, lookup_delete_eq.
  - by rewrite lookup_insert_ne, lookup_delete_ne.
Qed.

End Configuration.

(** C6. When one of [app_id], [app_secret] and [passphrase] is missing from
    the configuration of the channel, [SendMsg] returns one of its three
    configuration errors and no status; no status object was created and
    no network call was made. *)
Theorem SendMsg_missing_config (h : Host) (msg : Msg) (key : string) :
  In key requiredKeys ->
  channel_config (msg_channel msg) !! key = None ->
  exists e,
    In e configErrors /\
    SendMsg h msg =
    {| sent_result := Returned (None, Some e); sent_status := None; sent_net := [] |}.
Proof.
  intros Hkey Hnone.
  destruct (configCheck_missing (msg_channel msg) key Hkey) as [e He].
  { unfold StringConfigForKey. by rewrite Hnone. }
  exists e. split; [by eapply configCheck_error | by apply SendMsg_configCheck].
Qed.

Lemma SendMsg_missing_config_witness :
  exists e,
    In e configErrors /\
    SendMsg Sample.hostOK (withConfig (delete "app_secret" Sample.config) (Sample.msg "hello")) =
    {| sent_result := Returned (None, Some e); sent_status := None; sent_net := [] |}.
Proof.
  apply (SendMsg_missing_config Sample.hostOK
           (withConfig (delete "app_secret" Sample.config) (Sample.msg "hello"))
           "app_secret").
  - right; left; reflexivity.
  - reflexivity.
Defined.

(** C10. A configuration key among [app_id], [app_secret] and [passphrase]
    that is bound to the empty string is not told apart from one that is
    absent: on the two channels [SendMsg] does the same, and what it does
    is to return a configuration error. *)
Theorem SendMsg_empty_config_as_absent (h : Host) (msg : Msg)
    (cfg : gmap string string) (key : string) :
  In key requiredKeys ->
  SendMsg h (withConfig (<[key := ""]> cfg) msg) =
    SendMsg h (withConfig (delete key cfg) msg) /\
  exists e,
    In e configErrors /\
    SendMsg h (withConfig (delete key cfg) msg) =
    {| sent_result := Returned (None, Some e); sent_status := None; sent_net := [] |}.
Proof.
  intros Hkey.
  destruct (configCheck_missing (msg_channel (withConfig (delete key cfg) msg)) key Hkey)
    as [e He].
  { unfold StringConfigForKey. simpl. by rewrite lookup_delete_eq. }
  assert (configCheck (msg_channel (withConfig (<[key := ""]> cfg) msg)) = Some e) as He'.
  { rewrite <- He. unfold configCheck. by rewrite !StringConfigForKey_empty. }
  rewrite (SendMsg_configCheck h _ e He), (SendMsg_configCheck h _ e He').
  split; [done|]. exists e. split; [by eapply configCheck_error | done].
Qed.

Lemma SendMsg_empty_config_as_absent_witness :
  SendMsg Sample.hostOK (withConfig (<["passphrase" := ""]> Sample.config) (Sample.msg "hello")) =
  SendMsg Sample.hostOK (withConfig (delete "passphrase" Sample.config) (Sample.msg "hello")).
Proof.
  apply (SendMsg_empty_config_as_absent Sample.hostOK (Sample.msg "hello")
           Sample.config "passphrase").
  right; right; left; reflexivity.
Defined.

(** ** SendMsg: the request of a part *)

(** C9. The headers are set on the request before the error of
    [http.NewRequest] is looked at: as soon as the loop comes to a part for
    which [http.NewRequest] gives a nil request, the call panics, whatever
    the error that came with it; and when [SendMsg] does return through the
    error branch that follows, [http.NewRequest] had given that error
    together with a request that is not nil. *)
Theorem SendMsg_nil_request_panics (h : Host) (msg : Msg) :
  configured (msg_channel msg) ->
  (forall pre part post done err,
      partsOf h msg = pre ++ part :: post ->
      attemptAll h msg pre [] = Some done ->
      partRequest h msg part = (None, err) ->
      sent_result (SendMsg h msg) = Panicked) /\
  (forall err,
      sent_result (SendMsg h msg) = Returned (None, Some err) ->
      exists part req,
        In part (partsOf h msg) /\ partRequest h msg part = (Some req, Some err)).
Proof.
  intros Hconf. rewrite (SendMsg_configured h msg Hconf). split.
  - intros pre part post done err Hparts Hdone Hreq.
    rewrite Hparts, (sendLoop_attemptAll h msg pre (part :: post) _ _ _ Hdone).
    by rewrite sendLoop_cons, Hreq.
  - intros err Hres. by eapply sendLoop_request_error.
Qed.

Lemma SendMsg_nil_request_panics_witness :
  configured (msg_channel Sample.msgBadAddress) /\
  partRequest Sample.hostOK Sample.msgBadAddress "hello"
    = (None, Some "net/url: invalid control character in URL") /\
  sent_result (SendMsg Sample.hostOK Sample.msgBadAddress) = Panicked.
Proof.
  assert (configured (msg_channel Sample.msgBadAddress)) as Hconf.
  { repeat split; vm_compute; discriminate. }
  split; [exact Hconf|]. split; [reflexivity|].
  apply (proj1 (SendMsg_nil_request_panics Sample.hostOK Sample.msgBadAddress Hconf)
           [] "hello" [] [] (Some "net/url: invalid control character in URL"));
    reflexivity.
Defined.

(** ** The loop of ReceiveMessage *)

Section ReceiveLoop.

Context (h : Host) (c : Channel).

(** One turn of the loop, by what the checks and the backend come to. *)
Lemma receiveMsgs_cons (glMsg : InboundSMSMessage) (glMsgs : list InboundSMSMessage)
    (events msgs written : list IncomingMsg) :
  receiveMsgs h c (glMsg :: glMsgs) events msgs written =
  match entryCheck h glMsg with
  | Err err => respondNil h (RequestError err) written
  | Ok date =>
      match Backend_WriteMsg h written (entryMsg h c glMsg date) with
      | Some err =>
          {| recv_events := None; recv_err := Some err;
             recv_written := written; recv_responses := [] |}
      | None =>
          receiveMsgs h c glMsgs (events ++ [entryMsg h c glMsg date])
            (msgs ++ [entryMsg h c glMsg date]) (written ++ [entryMsg h c glMsg date])
      end
  end.
Proof.
  cbn [receiveMsgs]. unfold entryCheck, dateLayout, fmt.Errorf.
  destruct (time_Parse h _ (DateTime glMsg)) as [date|err]; [|reflexivity].
  destruct (strings.HasPrefix (SenderAddress glMsg) "tel:"); reflexivity.
Qed.

Lemma batchMsgs_cons (glMsg : InboundSMSMessage) (glMsgs : list InboundSMSMessage)
    (date : Time) :
  entryCheck h glMsg = Ok date ->
  batchMsgs h c (glMsg :: glMsgs) = entryMsg h c glMsg date :: batchMsgs h c glMsgs.
Proof. intros Hok. unfold batchMsgs. simpl. by rewrite Hok. Qed.

Lemma batchMsgs_length (glMsgs : list InboundSMSMessage) :
  Forall (validEntry h) glMsgs -> length (batchMsgs h c glMsgs) = length glMsgs.
Proof.
  induction 1 as [|glMsg glMsgs [date Hok] _ IH]; [reflexivity|].
  rewrite (batchMsgs_cons _ _ _ Hok). simpl. by rewrite IH.
Qed.

(** Entries that pass the checks and that the backend stores take the
    loop to the entries after them. *)
Lemma receiveMsgs_valid (pre rest : list InboundSMSMessage) :
  forall events msgs written,
    Forall (validEntry h) pre ->
    (forall stored m, In m (batchMsgs h c pre) -> Backend_WriteMsg h stored m = None) ->
    receiveMsgs h c (pre ++ rest) events msgs written =
    receiveMsgs h c rest (events ++ batchMsgs h c pre) (msgs ++ batchMsgs h c pre)
      (written ++ batchMsgs h c pre).
Proof.
  induction pre as [|glMsg pre IH]; intros events msgs written Hvalid Hdb.
  - simpl. by rewrite !app_nil_r.
  - inversion Hvalid as [|?? [date Hok] Hvalid']; subst.
    change ((glMsg :: pre) ++ rest) with (glMsg :: (pre ++ rest)).
    rewrite (batchMsgs_cons _ _ _ Hok) in *.
    rewrite receiveMsgs_cons, Hok, Hdb by (by left).
    rewrite IH; [|done|].
    + by rewrite <- !app_assoc.
    + intros stored m Hin. apply Hdb. by right.
Qed.

(** An entry that fails a check ends the loop: nothing is returned or
    acknowledged, and what the backend has stored by then is some of the
    messages of the entries before it, in their order. *)
Lemma receiveMsgs_abort (pre post : list InboundSMSMessage) (bad : InboundSMSMessage)
    (e : error) :
  forall events msgs written,
    Forall (validEntry h) pre ->
    entryCheck h bad = Err e ->
    recv_events (receiveMsgs h c (pre ++ bad :: post) events msgs written) = None /\
    Forall (fun resp => isMsgSuccess resp = false)
      (recv_responses (receiveMsgs h c (pre ++ bad :: post) events msgs written)) /\
    exists k,
      k <= length pre /\
      recv_written (receiveMsgs h c (pre ++ bad :: post) events msgs written) =
      written ++ take k (batchMsgs h c pre).
Proof.
  induction pre as [|glMsg pre IH]; intros events msgs written Hvalid Hbad.
  - simpl app. rewrite receiveMsgs_cons, Hbad. simpl.
    split; [done|]. split; [by repeat constructor|].
    exists 0. by rewrite app_nil_r.
  - inversion Hvalid as [|?? [date Hok] Hvalid']; subst.
    change ((glMsg :: pre) ++ bad :: post) with (glMsg :: (pre ++ bad :: post)).
    rewrite receiveMsgs_cons, Hok, (batchMsgs_cons _ _ _ Hok).
    destruct (Backend_WriteMsg h written (entryMsg h c glMsg date)) as [err|].
    + simpl. split; [done|]. split; [constructor|].
      exists 0. split; [lia | by rewrite app_nil_r].
    + destruct (IH (events ++ [entryMsg h c glMsg date]) (msgs ++ [entryMsg h c glMsg date])
                  (written ++ [entryMsg h c glMsg date]) Hvalid' Hbad)
        as (Hev & Hresp & k & Hk & Hwritten).
      split; [done|]. split; [done|].
      exists (S k). split; [simpl; lia|].
      rewrite Hwritten. simpl. by rewrite <- app_assoc.
Qed.

(** The messages of entries that pass the checks, entry by entry. *)
Lemma batchMsgs_Forall2 (glMsgs : list InboundSMSMessage) :
  Forall (validEntry h) glMsgs ->
  Forall2
    (fun glMsg m =>
       exists number,
         SenderAddress glMsg = "tel:" +:+ number /\
         in_urn m = urns_NewTelURNForCountry h number (channel_country c) /\
         in_channel m = c /\ in_text m = Message glMsg)
    glMsgs (batchMsgs h c glMsgs).
Proof.
  induction 1 as [|glMsg glMsgs [date Hok] _ IH]; [constructor|].
  rewrite (batchMsgs_cons _ _ _ Hok). constructor; [|exact IH].
  exists (strings.from 4 (SenderAddress glMsg)). split; [|done].
  apply (HasPrefix_from (SenderAddress glMsg) "tel:").
  unfold entryCheck in Hok.
  destruct (time_Parse h dateLayout (DateTime glMsg)); [|discriminate].
  by destruct (strings.HasPrefix (SenderAddress glMsg) "tel:").
Qed.

(** Entries that are all stored take the loop to the entries after them. *)
Lemma receiveMsgs_storedAll (pre rest : list InboundSMSMessage) :
  forall events msgs written,
    storedAll h c pre written = true ->
    receiveMsgs h c (pre ++ rest) events msgs written =
    receiveMsgs h c rest (events ++ batchMsgs h c pre) (msgs ++ batchMsgs h c pre)
      (written ++ batchMsgs h c pre).
Proof.
  induction pre as [|glMsg pre IH]; intros events msgs written Hall.
  - simpl. by rewrite !app_nil_r.
  - simpl in Hall.
    destruct (entryCheck h glMsg) as [date|e] eqn:Hok; [|discriminate].
    destruct (Backend_WriteMsg h written (entryMsg h c glMsg date)) eqn:Hdb;
      [discriminate|].
    change ((glMsg :: pre) ++ rest) with (glMsg :: (pre ++ rest)).
    rewrite (batchMsgs_cons _ _ _ Hok), receiveMsgs_cons, Hok, Hdb.
    rewrite (IH _ _ _ Hall). by rewrite <- !app_assoc.
Qed.

(** Entries that pass the checks but are not all stored end the loop on a
    write that the backend refused: no response, no event, its error. *)
Lemma receiveMsgs_not_stored (pre rest : list InboundSMSMessage) :
  forall events msgs written,
    Forall (validEntry h) pre ->
    storedAll h c pre written = false ->
    recv_responses (receiveMsgs h c (pre ++ rest) events msgs written) = [] /\
    recv_events (receiveMsgs h c (pre ++ rest) events msgs written) = None /\
    exists err stored m,
      recv_err (receiveMsgs h c (pre ++ rest) events msgs written) = Some err /\
      Backend_WriteMsg h stored m = Some err.
Proof.
  induction pre as [|glMsg pre IH]; intros events msgs written Hvalid Hnot.
  - discriminate Hnot.
  - inversion Hvalid as [|?? [date Hok] Hvalid']; subst.
    simpl in Hnot. rewrite Hok in Hnot.
    change ((glMsg :: pre) ++ rest) with (glMsg :: (pre ++ rest)).
    rewrite receiveMsgs_cons, Hok.
    destruct (Backend_WriteMsg h written (entryMsg h c glMsg date)) as [err|] eqn:Hdb.
    + simpl. split; [done|]. split; [done|]. by exists err, written, (entryMsg h c glMsg date).
    + by apply IH.
Qed.

End ReceiveLoop.

(** ** ReceiveMessage *)

Lemma validEntry_checks (h : Host) (glMsg : InboundSMSMessage) :
  (exists date, time_Parse h dateLayout (DateTime glMsg) = Ok date) ->
  strings.HasPrefix (SenderAddress glMsg) "tel:" = true ->
  validEntry h glMsg.
Proof.
  intros [date Hdate] Hprefix. exists date. unfold entryCheck.
  by rewrite Hdate, Hprefix.
Qed.

Lemma ReceiveMessage_decoded (h : Host) (c : Channel) (r : string) (glRequest : moMsg) :
  handlers_DecodeAndValidateJSON h r = Ok glRequest ->
  InboundSMSMessageList glRequest <> [] ->
  ReceiveMessage h c r = receiveMsgs h c (InboundSMSMessageList glRequest) [] [] [].
Proof.
  intros Hdec Hne. unfold ReceiveMessage. rewrite Hdec.
  by destruct (InboundSMSMessageList glRequest).
Qed.

(** C8. A payload that decodes to a list with no entry is answered with the
    ignored response and its reason and nothing else: no event is returned,
    nothing is handed to the backend, neither a request error nor a success
    acknowledgment is written, and the only error returned is the one the
    writing of the response may give. *)
Theorem ReceiveMessage_no_messages (h : Host) (c : Channel) (r : string) (glRequest : moMsg) :
  handlers_DecodeAndValidateJSON h r = Ok glRequest ->
  length (InboundSMSMessageList glRequest) = 0 ->
  recv_responses (ReceiveMessage h c r) = [RequestIgnored "no messages, ignored"] /\
  recv_events (ReceiveMessage h c r) = None /\
  recv_written (ReceiveMessage h c r) = [] /\
  Forall (fun resp => isRequestError resp = false /\ isMsgSuccess resp = false)
    (recv_responses (ReceiveMessage h c r)) /\
  recv_err (ReceiveMessage h c r) =
    ResponseWriter_Write h (RequestIgnored "no messages, ignored").
Proof.
  intros Hdec Hlen. unfold ReceiveMessage. rewrite Hdec, Hlen. simpl.
  repeat split. by repeat constructor.
Qed.

Lemma ReceiveMessage_no_messages_witness :
  recv_responses (ReceiveMessage Sample.hostEmpty Sample.channel "{}")
    = [RequestIgnored "no messages, ignored"] /\
  recv_written (ReceiveMessage Sample.hostEmpty Sample.channel "{}") = [].
Proof.
  destruct (ReceiveMessage_no_messages Sample.hostEmpty Sample.channel "{}"
              {| InboundSMSMessageList := [] |} eq_refl eq_refl)
    as (Hresp & _ & Hwritten & _).
  by split.
Defined.

(** The claim C5 fails on a batch of one entry with the known date and a
    sender with the prefix when the backend does not store the message:
    no message is returned. *)
Lemma ReceiveMessage_backend_down :
  handlers_DecodeAndValidateJSON Sample.hostDbDown "" = Sample.batch [Sample.hello] /\
  time_Parse Sample.hostDbDown dateLayout (DateTime Sample.hello) = Ok 1385122333%Z /\
  strings.HasPrefix (SenderAddress Sample.hello) "tel:" = true /\
  recv_events (ReceiveMessage Sample.hostDbDown Sample.channel "") = None /\
  recv_err (ReceiveMessage Sample.hostDbDown Sample.channel "")
    = Some "connection to the database lost".
Proof. by repeat split. Qed.

(** C5, amended. For a payload of N >= 1 entries whose timestamps all parse
    with the layout and whose senders all start with [tel:], and a backend
    that stores every message of the batch, the handler returns exactly N
    messages, in the order of the entries, each with the sender that
    [urns.NewTelURNForCountry] makes of the entry's address without the
    prefix and of the country of the channel; they are the messages stored
    and the ones acknowledged. *)
Theorem ReceiveMessage_valid_batch (h : Host) (c : Channel) (r : string)
    (glRequest : moMsg) :
  handlers_DecodeAndValidateJSON h r = Ok glRequest ->
  1 <= length (InboundSMSMessageList glRequest) ->
  Forall (fun glMsg =>
            (exists date, time_Parse h dateLayout (DateTime glMsg) = Ok date) /\
            strings.HasPrefix (SenderAddress glMsg) "tel:" = true)
    (InboundSMSMessageList glRequest) ->
  (forall stored m,
      In m (batchMsgs h c (InboundSMSMessageList glRequest)) ->
      Backend_WriteMsg h stored m = None) ->
  exists events,
    recv_events (ReceiveMessage h c r) = Some events /\
    length events = length (InboundSMSMessageList glRequest) /\
    Forall2
      (fun glMsg m =>
         exists number,
           SenderAddress glMsg = "tel:" +:+ number /\
           in_urn m = urns_NewTelURNForCountry h number (channel_country c) /\
           in_channel m = c /\ in_text m = Message glMsg)
      (InboundSMSMessageList glRequest) events /\
    recv_written (ReceiveMessage h c r) = events /\
    recv_responses (ReceiveMessage h c r) = [MsgSuccess events].
Proof.
  intros Hdec Hlen Hchecks Hdb.
  assert (Forall (validEntry h) (InboundSMSMessageList glRequest)) as Hvalid.
  { eapply List.Forall_impl; [|exact Hchecks]. intros glMsg [Hd Hp].
    by apply validEntry_checks. }
  rewrite (ReceiveMessage_decoded h c r glRequest Hdec)
    by (destruct (InboundSMSMessageList glRequest); [simpl in Hlen; lia | done]).
  pose proof (receiveMsgs_valid h c _ [] [] [] [] Hvalid Hdb) as Hloop.
  rewrite app_nil_r in Hloop. rewrite Hloop. simpl.
  exists (batchMsgs h c (InboundSMSMessageList glRequest)).
  split; [done|]. split; [by apply batchMsgs_length|].
  split; [by apply batchMsgs_Forall2 | done].
Qed.

Lemma ReceiveMessage_valid_batch_witness :
  exists events,
    recv_events (ReceiveMessage Sample.hostOK Sample.channel "") = Some events /\
    length events = 1.
Proof.
  destruct (ReceiveMessage_valid_batch Sample.hostOK Sample.channel ""
              {| InboundSMSMessageList := [Sample.hello] |} eq_refl)
    as (events & Hev & Hlen & _).
  - simpl. lia.
  - constructor; [|constructor]. split; [by exists 1385122333%Z | reflexivity].
  - reflexivity.
  - exists events. by split.
Defined.

(** The claim C2 fails on a batch whose second entry has a sender without
    the prefix: the message of the first entry was handed to the backend
    and stored before the second entry was looked at. *)
Lemma ReceiveMessage_stores_before_invalid :
  handlers_DecodeAndValidateJSON Sample.hostNoPrefix ""
    = Sample.batch [Sample.hello; Sample.noPrefix; Sample.hello] /\
  strings.HasPrefix (SenderAddress Sample.noPrefix) "tel:" = false /\
  recv_written (ReceiveMessage Sample.hostNoPrefix Sample.channel "")
    = [entryMsg Sample.hostNoPrefix Sample.channel Sample.hello 1385122333%Z] /\
  recv_written (ReceiveMessage Sample.hostNoPrefix Sample.channel "") <> [].
Proof. by repeat split. Qed.

(** C2, amended. In a batch whose first entry that fails a check is K, no
    event is returned and no success acknowledgment is written; what the
    backend has stored is messages of entries before K, in their order,
    and nothing of K or of an entry after it; with a backend that stores
    every message it is handed, all the entries before K are stored and
    the response is the request error of K. *)
Theorem ReceiveMessage_invalid_entry (h : Host) (c : Channel) (r : string)
    (glRequest : moMsg) (pre post : list InboundSMSMessage)
    (bad : InboundSMSMessage) (e : error) :
  handlers_DecodeAndValidateJSON h r = Ok glRequest ->
  InboundSMSMessageList glRequest = pre ++ bad :: post ->
  Forall (validEntry h) pre ->
  entryCheck h bad = Err e ->
  recv_events (ReceiveMessage h c r) = None /\
  Forall (fun resp => isMsgSuccess resp = false) (recv_responses (ReceiveMessage h c r)) /\
  (exists k,
      k <= length pre /\
      recv_written (ReceiveMessage h c r) = take k (batchMsgs h c pre)) /\
  ((forall stored m, In m (batchMsgs h c pre) -> Backend_WriteMsg h stored m = None) ->
   recv_written (ReceiveMessage h c r) = batchMsgs h c pre /\
   recv_responses (ReceiveMessage h c r) = [RequestError e]).
Proof.
  intros Hdec Hlist Hvalid Hbad.
  rewrite (ReceiveMessage_decoded h c r glRequest Hdec)
    by (rewrite Hlist; by destruct pre).
  rewrite Hlist.
  destruct (receiveMsgs_abort h c pre post bad e [] [] [] Hvalid Hbad)
    as (Hev & Hresp & k & Hk & Hwritten).
  split; [done|]. split; [done|]. split; [by exists k|].
  intros Hdb. rewrite (receiveMsgs_valid h c pre _ [] [] [] Hvalid Hdb).
  by rewrite receiveMsgs_cons, Hbad.
Qed.

Lemma ReceiveMessage_invalid_entry_witness :
  recv_events (ReceiveMessage Sample.hostNoPrefix Sample.channel "") = None /\
  recv_responses (ReceiveMessage Sample.hostNoPrefix Sample.channel "")
    = [RequestError "invalid 'senderAddress' parameter"].
Proof.
  destruct (ReceiveMessage_invalid_entry Sample.hostNoPrefix Sample.channel ""
              {| InboundSMSMessageList := [Sample.hello; Sample.noPrefix; Sample.hello] |}
              [Sample.hello] [Sample.hello] Sample.noPrefix
              "invalid 'senderAddress' parameter" eq_refl eq_refl)
    as (Hev & _ & _ & Hdb).
  - constructor; [by exists 1385122333%Z | constructor].
  - reflexivity.
  - split; [exact Hev|]. apply Hdb. reflexivity.
Defined.

(** The claim C7 fails on a batch whose second entry has a date that is
    not in the layout: the first entry was accepted, its message handed to
    the backend and stored, before the date of the second was parsed. *)
Lemma ReceiveMessage_stores_before_bad_date :
  handlers_DecodeAndValidateJSON Sample.hostBadDate ""
    = Sample.batch [Sample.hello; Sample.badDate; Sample.hello] /\
  (exists e, time_Parse Sample.hostBadDate dateLayout (DateTime Sample.badDate) = Err e) /\
  recv_written (ReceiveMessage Sample.hostBadDate Sample.channel "")
    = [entryMsg Sample.hostBadDate Sample.channel Sample.hello 1385122333%Z] /\
  recv_written (ReceiveMessage Sample.hostBadDate Sample.channel "") <> [].
Proof.
  split; [reflexivity|]. split; [eexists; reflexivity|]. by split.
Qed.

(** C7, amended. The first entry of a batch whose date does not parse with
    the layout, the entries before it passing both checks, ends the batch
    when the loop comes to it, which it does when the backend stored the
    message of every entry before it: the handler then writes a request
    error that carries the error of the parser and returns what the writing
    gives, the entries before it stay stored and none from it on is. When
    the backend refused one of the earlier messages the call ended there,
    with the error of the backend and no response. In both cases no event
    is returned, no success acknowledgment is written, and what is stored
    is messages of entries before it, in their order. *)
Theorem ReceiveMessage_bad_date (h : Host) (c : Channel) (r : string)
    (glRequest : moMsg) (pre post : list InboundSMSMessage)
    (bad : InboundSMSMessage) (e : error) :
  handlers_DecodeAndValidateJSON h r = Ok glRequest ->
  InboundSMSMessageList glRequest = pre ++ bad :: post ->
  Forall (validEntry h) pre ->
  time_Parse h dateLayout (DateTime bad) = Err e ->
  recv_events (ReceiveMessage h c r) = None /\
  Forall (fun resp => isMsgSuccess resp = false) (recv_responses (ReceiveMessage h c r)) /\
  (exists k,
      k <= length pre /\
      recv_written (ReceiveMessage h c r) = take k (batchMsgs h c pre)) /\
  (storedAll h c pre [] = true ->
   ReceiveMessage h c r =
   {| recv_events := None;
      recv_err := ResponseWriter_Write h (RequestError e);
      recv_written := batchMsgs h c pre;
      recv_responses := [RequestError e] |}) /\
  (storedAll h c pre [] = false ->
   recv_responses (ReceiveMessage h c r) = [] /\
   exists err stored m,
     recv_err (ReceiveMessage h c r) = Some err /\
     Backend_WriteMsg h stored m = Some err).
Proof.
  intros Hdec Hlist Hvalid Hdate.
  assert (entryCheck h bad = Err e) as Hbad by (unfold entryCheck; by rewrite Hdate).
  rewrite (ReceiveMessage_decoded h c r glRequest Hdec)
    by (rewrite Hlist; by destruct pre).
  rewrite Hlist.
  destruct (receiveMsgs_abort h c pre post bad e [] [] [] Hvalid Hbad)
    as (Hev & Hresp & k & Hk & Hwritten).
  split; [done|]. split; [done|]. split; [by exists k|]. split.
  - intros Hall. rewrite (receiveMsgs_storedAll h c pre _ [] [] [] Hall).
    by rewrite receiveMsgs_cons, Hbad.
  - intros Hnot.
    destruct (receiveMsgs_not_stored h c pre (bad :: post) [] [] [] Hvalid Hnot)
      as (Hnone & _ & Herr).
    by split.
Qed.

Lemma ReceiveMessage_bad_date_witness :
  ReceiveMessage Sample.hostBadDate Sample.channel "" =
  {| recv_events := None;
     recv_err := None;
     recv_written := batchMsgs Sample.hostBadDate Sample.channel [Sample.hello];
     recv_responses :=
       [RequestError
          "parsing time 2013-11-22T12:12:13Z as Mon Jan 2 2006 15:04:05 GMT+0000 (UTC)"] |} /\
  recv_responses (ReceiveMessage Sample.hostBadDateDown Sample.channel "") = [].
Proof.
  split.
  - destruct (ReceiveMessage_bad_date Sample.hostBadDate Sample.channel ""
                {| InboundSMSMessageList := [Sample.hello; Sample.badDate; Sample.hello] |}
                [Sample.hello] [Sample.hello] Sample.badDate
                "parsing time 2013-11-22T12:12:13Z as Mon Jan 2 2006 15:04:05 GMT+0000 (UTC)"
                eq_refl eq_refl)
      as (_ & _ & _ & Hall & _).
    + constructor; [by exists 1385122333%Z | constructor].
    + reflexivity.
    + rewrite Hall; reflexivity.
  - destruct (ReceiveMessage_bad_date Sample.hostBadDateDown Sample.channel ""
                {| InboundSMSMessageList := [Sample.hello; Sample.badDate] |}
                [Sample.hello] [] Sample.badDate
                "parsing time 2013-11-22T12:12:13Z as Mon Jan 2 2006 15:04:05 GMT+0000 (UTC)"
                eq_refl eq_refl)
      as (_ & _ & _ & _ & Hnot).
    + constructor; [by exists 1385122333%Z | constructor].
    + reflexivity.
    + by destruct (Hnot eq_refl).
Defined.

(** * Further properties of the handler *)

(** X1. When the request of every part is built and every call completes
    without a transport error, [SendMsg] returns the status after one call
    and one log entry for each part, in order; the status is [MsgWired]
    unless there was no part at all, in which case it is still
    [MsgErrored] and nothing was sent. *)
Theorem SendMsg_all_parts_sent (h : Host) (msg : Msg) (done : list Exchange) :
  configured (msg_channel msg) ->
  attemptAll h msg (partsOf h msg) [] = Some done ->
  exists st,
    SendMsg h msg =
      {| sent_result := Returned (Some st, None);
         sent_status := Some st; sent_net := done |} /\
    length done = length (partsOf h msg) /\
    status_logs st = map (logOf msg) done /\
    (status_value st = MsgWired <-> partsOf h msg <> []) /\
    (status_value st = MsgErrored <-> partsOf h msg = []).
Proof.
  intros Hconf Hdone.
  pose proof (sendLoop_attemptAll h msg (partsOf h msg) []
                (NewMsgStatusForID (msg_channel msg) (msg_id msg) MsgErrored) [] done Hdone)
    as Hloop.
  rewrite app_nil_r in Hloop.
  rewrite (SendMsg_configured h msg Hconf), Hloop. simpl.
  eexists. split; [reflexivity|].
  pose proof (attemptAll_length h msg _ _ _ Hdone) as Hlen.
  split; [done|]. rewrite wiredWith_logs, wiredWith_value. simpl.
  split; [done|].
  destruct done, (partsOf h msg); simpl in *; try discriminate; by split.
Qed.

Lemma SendMsg_all_parts_sent_witness :
  exists st,
    sent_result (SendMsg Sample.hostOK (Sample.msg Sample.body161))
      = Returned (Some st, None) /\
    length (status_logs st) = 2 /\ status_value st = MsgWired.
Proof.
  assert (configured (msg_channel (Sample.msg Sample.body161))) as Hconf.
  { repeat split; vm_compute; discriminate. }
  destruct (SendMsg_all_parts_sent Sample.hostOK (Sample.msg Sample.body161)
              [ {| ex_request :=
                     withHeaders (Sample.request (Sample.msg Sample.body161)
                                    (Sample.repeatChar 160 "a"%char));
                   ex_rr := {| rr_status_code := 201; rr_response_body := "{}" |};
                   ex_err := None |};
                {| ex_request :=
                     withHeaders (Sample.request (Sample.msg Sample.body161) "b");
                   ex_rr := {| rr_status_code := 201; rr_response_body := "{}" |};
                   ex_err := None |} ]
              Hconf eq_refl)
    as (st & Hsent & _ & Hlogs & Hwired & _).
  exists st. rewrite Hsent. split; [reflexivity|]. split.
  - by rewrite Hlogs.
  - by apply Hwired.
Defined.

(** X2. A status object exists after [SendMsg] exactly when the channel has
    its three configuration values; otherwise the call is one of the three
    configuration errors and nothing else happened. *)
Theorem SendMsg_status_iff_configured (h : Host) (msg : Msg) :
  (configured (msg_channel msg) <-> exists st, sent_status (SendMsg h msg) = Some st) /\
  (~ configured (msg_channel msg) <->
   exists e,
     In e configErrors /\
     SendMsg h msg =
     {| sent_result := Returned (None, Some e); sent_status := None; sent_net := [] |}).
Proof.
  destruct (configCheck_cases (msg_channel msg)) as [[Hconf _] | [Hnot [e He]]].
  - destruct (sendLoop_inv h msg (partsOf h msg)
                (NewMsgStatusForID (msg_channel msg) (msg_id msg) MsgErrored) [])
      as (new & st & _ & Hst & _).
    rewrite <- (SendMsg_configured h msg Hconf) in Hst.
    split; split; try tauto.
    + by exists st.
    + intros (e & _ & Hsent). rewrite Hsent in Hst. discriminate Hst.
  - pose proof (SendMsg_configCheck h msg e He) as Hsent.
    split; split; try tauto.
    + intros [st Hst]. rewrite Hsent in Hst. discriminate Hst.
    + intros _. exists e. split; [by eapply configCheck_error | done].
Qed.

(** X3. The three configuration values are checked in the order [app_id],
    [app_secret], [passphrase], and the error is the one of the first that
    is empty, whatever the values after it. *)
Theorem SendMsg_config_error_order (h : Host) (msg : Msg) :
  let failsWith (e : error) :=
    SendMsg h msg =
    {| sent_result := Returned (None, Some e); sent_status := None; sent_net := [] |} in
  (StringConfigForKey (msg_channel msg) configAppID "" = "" ->
   failsWith "Missing 'app_id' config for GL channel") /\
  (StringConfigForKey (msg_channel msg) configAppID "" <> "" ->
   StringConfigForKey (msg_channel msg) configAppSecret "" = "" ->
   failsWith "Missing 'app_secret' config for GL channel") /\
  (StringConfigForKey (msg_channel msg) configAppID "" <> "" ->
   StringConfigForKey (msg_channel msg) configAppSecret "" <> "" ->
   StringConfigForKey (msg_channel msg) configPassphrase "" = "" ->
   failsWith "Missing 'passphrase' config for GL channel").
Proof.
  simpl. repeat split.
  - intros Hid. apply SendMsg_configCheck. unfold configCheck. by rewrite Hid.
  - intros Hid Hsecret. apply SendMsg_configCheck. unfold configCheck.
    apply String.eqb_neq in Hid. by rewrite Hid, Hsecret.
  - intros Hid Hsecret Hpass. apply SendMsg_configCheck. unfold configCheck.
    apply String.eqb_neq in Hid, Hsecret. by rewrite Hid, Hsecret, Hpass.
Qed.

Lemma SendMsg_config_error_order_witness :
  SendMsg Sample.hostOK (withConfig ∅ (Sample.msg "hello")) =
  {| sent_result := Returned (None, Some "Missing 'app_id' config for GL channel");
     sent_status := None; sent_net := [] |}.
Proof.
  apply (proj1 (SendMsg_config_error_order Sample.hostOK (withConfig ∅ (Sample.msg "hello")))).
  reflexivity.
Defined.

(** X4. Every request handed to the network carries the headers
    [Content-Type] and [Accept], both [application/json]. *)
Theorem SendMsg_requests_have_json_headers (h : Host) (msg : Msg) :
  Forall (fun ex => jsonHeaders (ex_request ex)) (sent_net (SendMsg h msg)).
Proof.
  destruct (configCheck_cases (msg_channel msg)) as [[Hconf _] | [_ [e He]]].
  - rewrite (SendMsg_configured h msg Hconf).
    destruct (sendLoop_calls h msg (partsOf h msg)
                (NewMsgStatusForID (msg_channel msg) (msg_id msg) MsgErrored) [])
      as (new & -> & Hparts & _).
    simpl. revert Hparts. generalize (take (length new) (partsOf h msg)).
    induction new as [|ex new IH]; intros parts Hparts; [constructor|].
    inversion Hparts as [|part ? parts' ? (req & _ & Hreq) Hrest]; subst.
    constructor; [|by eapply IH].
    rewrite Hreq. apply withHeaders_jsonHeaders.
  - rewrite (SendMsg_configCheck h msg e He). constructor.
Qed.

(** X5. The calls of a send follow the parts: the i-th call is the call for
    the i-th part, there are never more calls than parts, and each call
    was made after, and knowing, exactly the calls before it. *)
Theorem SendMsg_calls_follow_parts (h : Host) (msg : Msg) :
  Forall2 (callFor h msg)
    (take (length (sent_net (SendMsg h msg))) (partsOf h msg))
    (sent_net (SendMsg h msg)) /\
  length (sent_net (SendMsg h msg)) <= length (partsOf h msg) /\
  (forall i ex,
      sent_net (SendMsg h msg) !! i = Some ex ->
      utils_MakeHTTPRequest h (take i (sent_net (SendMsg h msg))) (ex_request ex)
      = (ex_rr ex, ex_err ex)).
Proof.
  destruct (configCheck_cases (msg_channel msg)) as [[Hconf _] | [_ [e He]]].
  - rewrite (SendMsg_configured h msg Hconf).
    destruct (sendLoop_calls h msg (partsOf h msg)
                (NewMsgStatusForID (msg_channel msg) (msg_id msg) MsgErrored) [])
      as (new & -> & Hparts & Horacle & _).
    simpl. split; [done|]. split; [|done].
    apply Forall2_length in Hparts. rewrite length_take in Hparts. lia.
  - rewrite (SendMsg_configCheck h msg e He). simpl.
    split; [constructor|]. split; [lia|]. by intros [|?] ? ?.
Qed.

(** X6. The log of the status object mirrors the calls: it has one entry
    for each call made, in the order of the calls, built from the trace and
    the error of that call; and the status is the one of the message and
    of its channel. *)
Theorem SendMsg_logs_mirror_calls (h : Host) (msg : Msg) (st : MsgStatus) :
  sent_status (SendMsg h msg) = Some st ->
  status_logs st = map (logOf msg) (sent_net (SendMsg h msg)) /\
  status_channel st = msg_channel msg /\
  status_id st = msg_id msg.
Proof.
  destruct (configCheck_cases (msg_channel msg)) as [[Hconf _] | [_ [e He]]].
  - rewrite (SendMsg_configured h msg Hconf). intros Hst.
    destruct (sendLoop_inv h msg (partsOf h msg)
                (NewMsgStatusForID (msg_channel msg) (msg_id msg) MsgErrored) [])
      as (new & st' & Hnet & Hst' & Hlogs & _).
    rewrite Hst in Hst'. injection Hst' as <-.
    rewrite Hnet, Hlogs. split; [done|].
    by destruct (sendLoop_status_identity h msg _ _ _ _ Hst).
  - rewrite (SendMsg_configCheck h msg e He). discriminate.
Qed.

Lemma SendMsg_logs_mirror_calls_witness :
  exists st,
    sent_status (SendMsg Sample.hostFirstFails (Sample.msg Sample.body161)) = Some st /\
    map log_error (status_logs st) = [Some ("Message Send Error", "connection refused")].
Proof.
  eexists. split; [reflexivity|].
  rewrite (proj1 (SendMsg_logs_mirror_calls Sample.hostFirstFails
                    (Sample.msg Sample.body161) _ eq_refl)).
  reflexivity.
Defined.

(** X7. A call that fails in transport is the last call of the send, and
    the send then returns its status with no error; and a send that
    returns a status after calls that all completed made a call for every
    part. *)
Theorem SendMsg_failed_call_is_last (h : Host) (msg : Msg) :
  (forall i ex,
      sent_net (SendMsg h msg) !! i = Some ex -> ex_err ex <> None ->
      length (sent_net (SendMsg h msg)) = S i /\
      exists st, sent_result (SendMsg h msg) = Returned (Some st, None)) /\
  (forall st e,
      sent_result (SendMsg h msg) = Returned (Some st, e) ->
      Forall (fun ex => ex_err ex = None) (sent_net (SendMsg h msg)) ->
      length (sent_net (SendMsg h msg)) = length (partsOf h msg)).
Proof.
  destruct (configCheck_cases (msg_channel msg)) as [[Hconf _] | [_ [e He]]].
  - rewrite (SendMsg_configured h msg Hconf).
    destruct (sendLoop_calls h msg (partsOf h msg)
                (NewMsgStatusForID (msg_channel msg) (msg_id msg) MsgErrored) [])
      as (new & -> & _ & _ & Hfail & Hall).
    by split.
  - rewrite (SendMsg_configCheck h msg e He). simpl.
    split; [by intros [|?] ? ? | discriminate].
Qed.

Lemma SendMsg_failed_call_is_last_witness :
  length (sent_net (SendMsg Sample.hostFirstFails (Sample.msg Sample.body161))) = 1.
Proof.
  eapply (proj1 (SendMsg_failed_call_is_last Sample.hostFirstFails
                   (Sample.msg Sample.body161)) 0).
  - reflexivity.
  - discriminate.
Defined.

(** X8. [SendMsg] ends in one of three ways: it returns a status with no
    error, and the status is the status object; it returns an error with
    no status; or it panics. It never returns both a status and an error,
    nor neither. *)
Theorem SendMsg_result_shapes (h : Host) (msg : Msg) :
  (exists st,
      sent_result (SendMsg h msg) = Returned (Some st, None) /\
      sent_status (SendMsg h msg) = Some st) \/
  (exists e, sent_result (SendMsg h msg) = Returned (None, Some e)) \/
  sent_result (SendMsg h msg) = Panicked.
Proof.
  destruct (configCheck_cases (msg_channel msg)) as [[Hconf _] | [_ [e He]]].
  - rewrite (SendMsg_configured h msg Hconf).
    destruct (sendLoop_inv h msg (partsOf h msg)
                (NewMsgStatusForID (msg_channel msg) (msg_id msg) MsgErrored) [])
      as (new & st & _ & Hst & _ & _ & Hres).
    destruct (sendLoop_result h msg (partsOf h msg)
                (NewMsgStatusForID (msg_channel msg) (msg_id msg) MsgErrored) [])
      as [[st' Hst'] | [(e & _ & _ & He & _) | [Hpanic _]]].
    + left. exists st'. split; [done|].
      destruct (Hres st' None Hst') as [-> _]. done.
    + right; left. by exists e.
    + by right; right.
  - right; left. exists e. by rewrite (SendMsg_configCheck h msg e He).
Qed.

(** X9. [SendMsg] panics only on a configured channel, and only when
    [http.NewRequest] gave a nil request for one of the parts. *)
Theorem SendMsg_panics_only_on_nil_request (h : Host) (msg : Msg) :
  sent_result (SendMsg h msg) = Panicked ->
  configured (msg_channel msg) /\
  exists part err,
    In part (partsOf h msg) /\ partRequest h msg part = (None, err).
Proof.
  destruct (configCheck_cases (msg_channel msg)) as [[Hconf _] | [_ [e He]]].
  - rewrite (SendMsg_configured h msg Hconf). intros Hpanic. split; [done|].
    destruct (sendLoop_result h msg (partsOf h msg)
                (NewMsgStatusForID (msg_channel msg) (msg_id msg) MsgErrored) [])
      as [[st Hst] | [(e & _ & _ & He & _) | [_ Hnil]]]; [congruence | congruence | done].
  - rewrite (SendMsg_configCheck h msg e He). discriminate.
Qed.

Lemma SendMsg_panics_only_on_nil_request_witness :
  exists part err,
    In part (partsOf Sample.hostOK Sample.msgBadAddress) /\
    partRequest Sample.hostOK Sample.msgBadAddress part = (None, err).
Proof.
  apply (SendMsg_panics_only_on_nil_request Sample.hostOK Sample.msgBadAddress).
  reflexivity.
Defined.

(** ** The URL of a send *)

Lemma str_app_inv_tail (s t u : string) : s +:+ u = t +:+ u -> s = t.
Proof.
  revert t. induction s as [|ch s IH]; intros [|ch' t] Heq.
  - reflexivity.
  - apply (f_equal String.length) in Heq.
    rewrite !str_length_app in Heq. simpl in Heq. lia.
  - apply (f_equal String.length) in Heq.
    rewrite !str_length_app in Heq. simpl in Heq. lia.
  - change (String ch (s +:+ u) = String ch' (t +:+ u)) in Heq.
    injection Heq as -> Heq. f_equal. by apply IH.
Qed.

(** The exchanges that are calls for leading parts are calls for parts. *)
Lemma callFor_parts (h : Host) (msg : Msg) (new : list Exchange) :
  forall (n : nat) (parts : list string),
    Forall2 (callFor h msg) (take n parts) new ->
    Forall (fun ex => exists part, In part parts /\ callFor h msg part ex) new.
Proof.
  induction new as [|ex new IH]; intros n parts Hcalls; [constructor|].
  destruct n as [|n], parts as [|part parts]; simpl in Hcalls; try by inversion Hcalls.
  inversion Hcalls as [|???? Hcall Hrest]; subst. constructor.
  - exists part. split; [by left | done].
  - eapply List.Forall_impl; [|exact (IH n parts Hrest)].
    intros ex' (part' & Hin & Hcall'). exists part'. split; [by right | done].
Qed.

(** X10. Every request [SendMsg] hands to the network is the one that
    [http.NewRequest] built for a part of the message from the method POST,
    the URL of the vendor's endpoint with the address of the channel in
    the place of the verb, and the encoding of the part with the
    destination without its leading plus sign and the three configuration
    values, and that then got the two headers; and two different channel
    addresses never give the same URL. *)
Theorem SendMsg_posts_to_channel_url (h : Host) (msg : Msg) :
  Forall
    (fun ex =>
       exists part req,
         In part (partsOf h msg) /\
         http_NewRequest h "POST"
           ("https://devapi.globelabs.com.ph/smsmessaging/v1/outbound/"
              +:+ channel_address (msg_channel msg) +:+ "/requests")
           (json_Encode h
              {| Address := strings.TrimPrefix (urns_Path h (msg_urn msg)) "+";
                 mt_Message := part;
                 Passphrase := StringConfigForKey (msg_channel msg) "passphrase" "";
                 AppID := StringConfigForKey (msg_channel msg) "app_id" "";
                 AppSecret := StringConfigForKey (msg_channel msg) "app_secret" "" |})
         = (Some req, None) /\
         ex_request ex = withHeaders req)
    (sent_net (SendMsg h msg)) /\
  (forall address address',
      fmt.Sprintf sendURL address = fmt.Sprintf sendURL address' ->
      address = address').
Proof.
  assert (forall address,
             fmt.Sprintf sendURL address =
             "https://devapi.globelabs.com.ph/smsmessaging/v1/outbound/"
               +:+ address +:+ "/requests") as Hurl by (intros; reflexivity).
  split.
  - destruct (configCheck_cases (msg_channel msg)) as [[Hconf _] | [_ [e He]]].
    + rewrite (SendMsg_configured h msg Hconf).
      destruct (sendLoop_calls h msg (partsOf h msg)
                  (NewMsgStatusForID (msg_channel msg) (msg_id msg) MsgErrored) [])
        as (new & -> & Hparts & _).
      simpl. eapply List.Forall_impl; [|exact (callFor_parts h msg new _ _ Hparts)].
      intros ex (part & Hin & req & Hreq & Hex). exists part, req.
      split; [done|]. split; [|done].
      unfold partRequest in Hreq. rewrite Hurl in Hreq. exact Hreq.
    + rewrite (SendMsg_configCheck h msg e He). constructor.
  - intros address address' Heq. rewrite !Hurl in Heq.
    apply String.app_inj in Heq. by apply str_app_inv_tail in Heq.
Qed.

(** ** How a call of the webhook ends *)

Section ReceiveEnds.

Context (h : Host) (c : Channel).

(** The three ways the loop over the entries ends, after [k] entries that
    passed the checks and were stored: at the end of the list, with the
    acknowledgment; on an entry that fails a check, with a request error;
    on an entry that the backend does not store, with no response. *)
Lemma receiveMsgs_ends (glMsgs : list InboundSMSMessage) :
  forall events msgs written, exists k,
    k <= length glMsgs /\
    Forall (validEntry h) (take k glMsgs) /\
    recv_written (receiveMsgs h c glMsgs events msgs written)
      = written ++ batchMsgs h c (take k glMsgs) /\
    ((k = length glMsgs /\
      recv_events (receiveMsgs h c glMsgs events msgs written)
        = Some (events ++ batchMsgs h c glMsgs) /\
      recv_responses (receiveMsgs h c glMsgs events msgs written)
        = [MsgSuccess (msgs ++ batchMsgs h c glMsgs)] /\
      recv_err (receiveMsgs h c glMsgs events msgs written)
        = ResponseWriter_Write h (MsgSuccess (msgs ++ batchMsgs h c glMsgs))) \/
     (exists bad e,
         glMsgs !! k = Some bad /\ entryCheck h bad = Err e /\
         recv_events (receiveMsgs h c glMsgs events msgs written) = None /\
         recv_responses (receiveMsgs h c glMsgs events msgs written) = [RequestError e] /\
         recv_err (receiveMsgs h c glMsgs events msgs written)
           = ResponseWriter_Write h (RequestError e)) \/
     (exists glMsg date err,
         glMsgs !! k = Some glMsg /\ entryCheck h glMsg = Ok date /\
         Backend_WriteMsg h (written ++ batchMsgs h c (take k glMsgs))
           (entryMsg h c glMsg date) = Some err /\
         recv_events (receiveMsgs h c glMsgs events msgs written) = None /\
         recv_responses (receiveMsgs h c glMsgs events msgs written) = [] /\
         recv_err (receiveMsgs h c glMsgs events msgs written) = Some err)).
Proof.
  induction glMsgs as [|glMsg glMsgs IH]; intros events msgs written.
  - exists 0. simpl. rewrite !app_nil_r.
    split; [done|]. split; [constructor|]. split; [done|]. by left.
  - rewrite receiveMsgs_cons.
    destruct (entryCheck h glMsg) as [date|e] eqn:Hcheck.
    + destruct (Backend_WriteMsg h written (entryMsg h c glMsg date)) as [err|] eqn:Hdb.
      * exists 0. simpl. rewrite !app_nil_r.
        split; [lia|]. split; [constructor|]. split; [done|].
        right; right. by exists glMsg, date, err.
      * destruct (IH (events ++ [entryMsg h c glMsg date])
                    (msgs ++ [entryMsg h c glMsg date])
                    (written ++ [entryMsg h c glMsg date]))
          as (k & Hk & Hvalid & Hwritten & Hend).
        exists (S k). simpl take.
        rewrite !(batchMsgs_cons h c _ _ _ Hcheck).
        rewrite <- !app_assoc in *. simpl in *.
        split; [lia|]. split; [constructor; [by exists date | done]|].
        split; [done|].
        destruct Hend as [(-> & Hev & Hresp & Herr) | [Hbad | Hfail]].
        -- by left.
        -- right; left. exact Hbad.
        -- right; right. exact Hfail.
    + exists 0. simpl. rewrite !app_nil_r.
      split; [lia|]. split; [constructor|]. split; [done|].
      right; left. by exists glMsg, e.
Qed.

End ReceiveEnds.

(** The call on a payload that decodes to at least one entry is the loop. *)
Lemma ReceiveMessage_entries (h : Host) (c : Channel) (r : string) :
  entriesOf h r <> [] ->
  ReceiveMessage h c r = receiveMsgs h c (entriesOf h r) [] [] [].
Proof.
  unfold ReceiveMessage, entriesOf.
  destruct (handlers_DecodeAndValidateJSON h r) as [glRequest|err]; [|done].
  by destruct (InboundSMSMessageList glRequest).
Qed.

(** Without an entry there is one response, nothing returned or stored. *)
Lemma ReceiveMessage_no_entries (h : Host) (c : Channel) (r : string) :
  entriesOf h r = [] ->
  exists resp,
    ReceiveMessage h c r = respondNil h resp [] /\
    match handlers_DecodeAndValidateJSON h r with
    | Ok _ => resp = RequestIgnored "no messages, ignored"
    | Err err => resp = RequestError err
    end.
Proof.
  unfold ReceiveMessage, entriesOf.
  destruct (handlers_DecodeAndValidateJSON h r) as [glRequest|err].
  - intros ->. by eexists.
  - intros _. by eexists.
Qed.

(** X11. When [ReceiveMessage] returns events, the payload had decoded to at
    least one entry, every entry passed both checks, and the events are the
    messages of all the entries, in order: the very messages that were
    stored and that the one response written acknowledges. *)
Theorem ReceiveMessage_events_returned (h : Host) (c : Channel) (r : string)
    (events : list IncomingMsg) :
  recv_events (ReceiveMessage h c r) = Some events ->
  entriesOf h r <> [] /\
  Forall (validEntry h) (entriesOf h r) /\
  events = batchMsgs h c (entriesOf h r) /\
  length events = length (entriesOf h r) /\
  recv_written (ReceiveMessage h c r) = events /\
  recv_responses (ReceiveMessage h c r) = [MsgSuccess events].
Proof.
  destruct (entriesOf h r) as [|glMsg glMsgs] eqn:Hentries.
  { destruct (ReceiveMessage_no_entries h c r Hentries) as (resp & -> & _). discriminate. }
  rewrite ReceiveMessage_entries, Hentries by (by rewrite Hentries).
  destruct (receiveMsgs_ends h c (glMsg :: glMsgs) [] [] [])
    as (k & _ & Hvalid & Hwritten & Hend).
  destruct Hend as [(-> & Hev & Hresp & _) | [Hend | Hend]].
  - rewrite Hev, Hwritten, Hresp. rewrite firstn_all in *. rewrite !app_nil_l.
    intros [= <-]. split; [done|]. split; [done|]. split; [done|].
    split; [exact (batchMsgs_length h c (glMsg :: glMsgs) Hvalid) | done].
  - destruct Hend as (bad & e & _ & _ & -> & _). discriminate.
  - destruct Hend as (bad & date & err & _ & _ & _ & -> & _). discriminate.
Qed.

Lemma ReceiveMessage_events_returned_witness :
  recv_written (ReceiveMessage Sample.hostOK Sample.channel "")
  = [entryMsg Sample.hostOK Sample.channel Sample.hello 1385122333%Z].
Proof.
  apply (ReceiveMessage_events_returned Sample.hostOK Sample.channel ""
           [entryMsg Sample.hostOK Sample.channel Sample.hello 1385122333%Z]).
  reflexivity.
Defined.

(** X12. Whatever the outcome, what the backend has stored is the messages
    of the first k entries of the payload, in their order, for some k, and
    those entries all passed both checks: no message is stored for an
    entry after one that was not stored. *)
Theorem ReceiveMessage_stored_prefix (h : Host) (c : Channel) (r : string) :
  exists k,
    k <= length (entriesOf h r) /\
    Forall (validEntry h) (take k (entriesOf h r)) /\
    recv_written (ReceiveMessage h c r) = batchMsgs h c (take k (entriesOf h r)).
Proof.
  destruct (entriesOf h r) as [|glMsg glMsgs] eqn:Hentries.
  - destruct (ReceiveMessage_no_entries h c r Hentries) as (resp & -> & _).
    exists 0. simpl. split; [done|]. by split; [constructor|].
  - rewrite ReceiveMessage_entries, Hentries by (by rewrite Hentries).
    destruct (receiveMsgs_ends h c (glMsg :: glMsgs) [] [] [])
      as (k & Hk & Hvalid & Hwritten & _).
    by exists k.
Qed.

(** X13. When the backend does not store the message of an entry, the
    entries before it having passed the checks and been stored in this
    call, the call returns the error of the backend and no event, and
    writes no response at all; the earlier messages stay stored and no
    later entry is looked at. That holds also when the refused message
    repeats one that was stored. *)
Theorem ReceiveMessage_backend_failure (h : Host) (c : Channel) (r : string)
    (pre post : list InboundSMSMessage) (glMsg : InboundSMSMessage)
    (date : Time) (err : error) :
  entriesOf h r = pre ++ glMsg :: post ->
  storedAll h c pre [] = true ->
  entryCheck h glMsg = Ok date ->
  Backend_WriteMsg h (batchMsgs h c pre) (entryMsg h c glMsg date) = Some err ->
  ReceiveMessage h c r =
  {| recv_events := None; recv_err := Some err;
     recv_written := batchMsgs h c pre; recv_responses := [] |}.
Proof.
  intros Hentries Hall Hcheck Hfail.
  rewrite ReceiveMessage_entries, Hentries by (rewrite Hentries; by destruct pre).
  rewrite (receiveMsgs_storedAll h c pre _ [] [] [] Hall), !app_nil_l.
  by rewrite receiveMsgs_cons, Hcheck, Hfail.
Qed.

Lemma ReceiveMessage_backend_failure_witness :
  ReceiveMessage Sample.hostRepeated Sample.channel "" =
  {| recv_events := None; recv_err := Some "message already stored";
     recv_written := [entryMsg Sample.hostRepeated Sample.channel Sample.hello 1385122333%Z];
     recv_responses := [] |}.
Proof.
  apply (ReceiveMessage_backend_failure Sample.hostRepeated Sample.channel ""
           [Sample.hello] [] Sample.hello 1385122333%Z "message already stored");
    reflexivity.
Defined.

(** X14. A call writes one response, and then the error it returns is the
    one the writing of that response gave, and it returns events exactly
    when the response is the acknowledgment; or it writes no response, and
    then it returns no event and an error that the backend gave for a
    message. *)
Theorem ReceiveMessage_one_response (h : Host) (c : Channel) (r : string) :
  (exists resp,
      recv_responses (ReceiveMessage h c r) = [resp] /\
      recv_err (ReceiveMessage h c r) = ResponseWriter_Write h resp /\
      (isMsgSuccess resp = true <-> recv_events (ReceiveMessage h c r) <> None)) \/
  (recv_responses (ReceiveMessage h c r) = [] /\
   recv_events (ReceiveMessage h c r) = None /\
   exists err stored m,
     recv_err (ReceiveMessage h c r) = Some err /\
     Backend_WriteMsg h stored m = Some err).
Proof.
  destruct (entriesOf h r) as [|glMsg glMsgs] eqn:Hentries.
  - destruct (ReceiveMessage_no_entries h c r Hentries) as (resp & -> & Hresp).
    left. exists resp. simpl. split; [done|]. split; [done|].
    destruct (handlers_DecodeAndValidateJSON h r); subst; simpl; by split.
  - rewrite ReceiveMessage_entries, Hentries by (by rewrite Hentries).
    destruct (receiveMsgs_ends h c (glMsg :: glMsgs) [] [] [])
      as (k & _ & _ & _ & Hend).
    destruct Hend as [(_ & Hev & Hresp & Herr) | [Hend | Hend]].
    + left. eexists. rewrite Hev, Hresp, Herr. by repeat split.
    + destruct Hend as (bad & e & _ & _ & Hev & Hresp & Herr).
      left. eexists. rewrite Hev, Hresp, Herr. by repeat split.
    + destruct Hend as (bad & date & err & _ & _ & Hdb & Hev & Hresp & Herr).
      right. rewrite Hev, Hresp, Herr. split; [done|]. split; [done|]. eauto.
Qed.

(** X15. The ignored response is written exactly for a payload that
    decodes to a list with no entry. *)
Theorem ReceiveMessage_ignored_iff_empty (h : Host) (c : Channel) (r : string) :
  (exists details, In (RequestIgnored details) (recv_responses (ReceiveMessage h c r))) <->
  (exists glRequest,
      handlers_DecodeAndValidateJSON h r = Ok glRequest /\
      InboundSMSMessageList glRequest = []).
Proof.
  split.
  - intros [details Hin].
    destruct (entriesOf h r) as [|glMsg glMsgs] eqn:Hentries.
    + destruct (ReceiveMessage_no_entries h c r Hentries) as (resp & Hcall & Hresp).
      rewrite Hcall in Hin. unfold entriesOf in Hentries.
      destruct (handlers_DecodeAndValidateJSON h r) as [glRequest|err]; [by eauto|].
      subst resp. by destruct Hin as [?|[]].
    + rewrite ReceiveMessage_entries, Hentries in Hin by (by rewrite Hentries).
      destruct (receiveMsgs_ends h c (glMsg :: glMsgs) [] [] [])
        as (k & _ & _ & _ & Hend).
      destruct Hend as [(_ & _ & Hresp & _) | [Hend | Hend]].
      * rewrite Hresp in Hin. by destruct Hin as [?|[]].
      * destruct Hend as (bad & e & _ & _ & _ & Hresp & _).
        rewrite Hresp in Hin. by destruct Hin as [?|[]].
      * destruct Hend as (bad & date & err & _ & _ & _ & _ & Hresp & _).
        rewrite Hresp in Hin. destruct Hin.
  - intros (glRequest & Hdec & Hempty). exists "no messages, ignored".
    unfold ReceiveMessage. rewrite Hdec, Hempty. simpl. by left.
Qed.

(** X16. A request error is written either for a payload that does not
    decode, with the error of the decoder and nothing stored, or for the
    first entry that fails a check, with the error of that check, after
    the entries before it passed the checks and were stored. *)
Theorem ReceiveMessage_request_error_origin (h : Host) (c : Channel) (r : string)
    (e : error) :
  recv_responses (ReceiveMessage h c r) = [RequestError e] ->
  (handlers_DecodeAndValidateJSON h r = Err e /\
   recv_written (ReceiveMessage h c r) = []) \/
  (exists k bad,
      entriesOf h r !! k = Some bad /\ entryCheck h bad = Err e /\
      Forall (validEntry h) (take k (entriesOf h r)) /\
      recv_written (ReceiveMessage h c r) = batchMsgs h c (take k (entriesOf h r))).
Proof.
  destruct (entriesOf h r) as [|glMsg glMsgs] eqn:Hentries.
  - destruct (ReceiveMessage_no_entries h c r Hentries) as (resp & -> & Hresp).
    simpl. intros [= ->]. left.
    destruct (handlers_DecodeAndValidateJSON h r) as [glRequest|err]; [discriminate|].
    by injection Hresp as ->.
  - rewrite ReceiveMessage_entries, Hentries by (by rewrite Hentries).
    destruct (receiveMsgs_ends h c (glMsg :: glMsgs) [] [] [])
      as (k & _ & Hvalid & Hwritten & Hend).
    destruct Hend as [(_ & _ & -> & _) | [Hend | Hend]]; [discriminate | |].
    + destruct Hend as (bad & e' & Hbad & Hcheck & _ & -> & _).
      intros [= ->]. right. by exists k, bad.
    + destruct Hend as (bad & date & err & _ & _ & _ & _ & -> & _). discriminate.
Qed.

Lemma ReceiveMessage_request_error_origin_witness :
  exists k bad,
    entriesOf Sample.hostNoPrefix "" !! k = Some bad /\
    entryCheck Sample.hostNoPrefix bad = Err "invalid 'senderAddress' parameter".
Proof.
  destruct (ReceiveMessage_request_error_origin Sample.hostNoPrefix Sample.channel ""
              "invalid 'senderAddress' parameter" eq_refl)
    as [[Hdec _] | (k & bad & Hbad & Hcheck & _)].
  - discriminate Hdec.
  - by exists k, bad.
Defined.

(** X17. Because a failed call ends the send, the first call decides the
    status: the status object is [MsgWired] exactly when there is a first
    part, its request is built and the network, called before any other
    call, completes the call for it without a transport error; that call
    is then the first exchange of the send. Whatever the network does for
    the later parts changes nothing. *)
Theorem SendMsg_wired_iff_first_call_succeeded (h : Host) (msg : Msg) (st : MsgStatus) :
  sent_status (SendMsg h msg) = Some st ->
  (status_value st = MsgWired <->
   exists part req rr,
     partsOf h msg !! 0 = Some part /\
     partRequest h msg part = (Some req, None) /\
     utils_MakeHTTPRequest h [] (withHeaders req) = (rr, None)) /\
  (status_value st = MsgWired <->
   exists ex, sent_net (SendMsg h msg) !! 0 = Some ex /\ ex_err ex = None) /\
  (forall ex,
      sent_net (SendMsg h msg) !! 0 = Some ex ->
      exists part req,
        partsOf h msg !! 0 = Some part /\
        partRequest h msg part = (Some req, None) /\
        ex_request ex = withHeaders req /\
        utils_MakeHTTPRequest h [] (withHeaders req) = (ex_rr ex, ex_err ex)).
Proof.
  destruct (configCheck_cases (msg_channel msg)) as [[Hconf _] | [_ [e He]]].
  - rewrite (SendMsg_configured h msg Hconf). intros Hst.
    destruct (sendLoop_inv h msg (partsOf h msg)
                (NewMsgStatusForID (msg_channel msg) (msg_id msg) MsgErrored) [])
      as (new & st' & Hnet & Hst' & _ & Hval & _).
    destruct (sendLoop_calls h msg (partsOf h msg)
                (NewMsgStatusForID (msg_channel msg) (msg_id msg) MsgErrored) [])
      as (new' & Hnet' & Hparts & Horacle & Hfail & _).
    pose proof (sendLoop_first_call h msg (partsOf h msg) _ [] st Hst eq_refl) as Hfirst.
    rewrite Hst in Hst'. injection Hst' as <-.
    rewrite Hnet in *. simpl in Hnet', Hval, Horacle. subst new'. simpl.
    split; [exact Hfirst|]. split.
    + rewrite Hval. split.
      * intros [Hinit|Hok]; [discriminate Hinit|].
        destruct new as [|ex0 rest]; [inversion Hok|].
        exists ex0. split; [done|].
        destruct (ex_err ex0) as [err|] eqn:Herr0; [|done].
        destruct (Hfail 0 ex0 eq_refl) as [Hlen _]; [by rewrite Herr0|].
        destruct rest; [|discriminate Hlen].
        inversion Hok as [?? Hhead|?? Htail]; subst; [congruence | inversion Htail].
      * intros (ex & Hex & Hok). right.
        destruct new as [|ex0 rest]; [discriminate Hex|].
        injection Hex as ->. by constructor.
    + intros ex Hex. destruct new as [|ex0 rest]; [discriminate Hex|].
      injection Hex as ->.
      destruct (partsOf h msg) as [|part parts]; simpl in Hparts; [inversion Hparts|].
      inversion Hparts as [|???? (req & Hreq & Hreq') _]; subst.
      exists part, req. split; [done|]. split; [done|]. split; [done|].
      rewrite <- Hreq'. exact (Horacle 0 ex eq_refl).
  - rewrite (SendMsg_configCheck h msg e He). discriminate.
Qed.

Lemma SendMsg_wired_iff_first_call_succeeded_witness :
  exists st,
    sent_status (SendMsg Sample.hostOK (Sample.msg "hello")) = Some st /\
    status_value st = MsgWired.
Proof.
  eexists. split; [reflexivity|].
  apply (proj1 (SendMsg_wired_iff_first_call_succeeded Sample.hostOK
                  (Sample.msg "hello") _ eq_refl)).
  exists "hello", (Sample.request (Sample.msg "hello") "hello"),
    {| rr_status_code := 201; rr_response_body := "{}" |}.
  by repeat split.
Defined.
